(** * URDF export helpers of the FreeCAD ROS workbench

    A shallow embedding of [freecad/workbench_ros/urdf_utils.py]: the rotation
    conversions (quaternion, homogeneous matrix, roll-pitch-yaw), the
    per-primitive centering and emitter functions, the generic dispatcher and
    the group validator.

    Python's [float] is idealised as the real numbers; [numpy] arrays are
    lists (one dimension) and lists of rows (two dimensions).  The real
    numbers have one zero, no overflow and no rounding: a statement about
    angles or matrices says what the formulas of the code compute, and it
    carries over to binary64 up to rounding only where the formulas are well
    conditioned, that is away from the branch cut of [atan2], away from
    gimbal lock and inside the range of binary64.  What the code does to a
    rotation close to gimbal lock is shown on a second rendering of the
    conversion, [binary64], with the numbers and the rounding of the code. *)

From Stdlib Require Import Reals Lra Lia List String Ascii Bool RNsatz.
From Stdlib Require Floats.
Import ListNotations.

Local Open Scope R_scope.

(** ** numpy and math *)

Module np.

Definition ndarray1 := list R.
Definition ndarray2 := list (list R).

(** [np.dot(a, b)] on two one-dimensional arrays. *)
Fixpoint dot (a b : ndarray1) : R :=
  match a, b with
  | x :: a', y :: b' => x * y + dot a' b'
  | _, _ => 0
  end.

(** [a *= k]. *)
Definition scale (k : R) (a : ndarray1) : ndarray1 := map (fun x => x * k) a.

(** [np.outer(a, b)]. *)
Definition outer (a b : ndarray1) : ndarray2 :=
  map (fun x => map (fun y => x * y) b) a.

(** Row [i] of [np.identity(n)], columns [j], [j+1], ... *)
Fixpoint identity_row (i j len : nat) : ndarray1 :=
  match len with
  | O => []
  | S len' => (if Nat.eqb i j then 1 else 0) :: identity_row i (S j) len'
  end.

(** [np.identity(n)]. *)
Definition identity (n : nat) : ndarray2 :=
  map (fun i => identity_row i 0 n) (seq 0 n).

(** [M[i, j]], for indices inside the array, as they are at every call
    below on a 3x3 or 4x4 array. *)
Definition get (M : ndarray2) (i j : nat) : R := nth j (nth i M []) 0.

(** [M[:r, :c]]. *)
Definition slice (r c : nat) (M : ndarray2) : ndarray2 :=
  map (firstn c) (firstn r M).

(** [M.shape == (r, c)]. *)
Definition shape (r c : nat) (M : ndarray2) : Prop :=
  List.length M = r /\ Forall (fun row => List.length row = c) M.

(** [np.degrees(x)]. *)
Definition degrees (x : R) : R := x * 180 / PI.

End np.

Notation "M .[ i , j ]" := (np.get M i j) (at level 1, format "M .[ i ,  j ]").

Module math.

(** [math.atan2(y, x)], the angle of the point [(x, y)] in (-pi, pi].
    Over the reals there is one zero: on the negative x axis the angle is
    [PI].  The binary64 function reads the sign of a zero [y] and returns
    [-pi] for [atan2(-0.0, x)] with [x < 0]; its range is the closed
    interval [-pi, pi]. *)
Definition atan2 (y x : R) : R :=
  if Rlt_dec 0 x then atan (y / x)
  else if Rlt_dec x 0 then
    if Rle_dec 0 y then atan (y / x) + PI else atan (y / x) - PI
  else if Rlt_dec 0 y then PI / 2
  else if Rlt_dec y 0 then - (PI / 2)
  else 0.

End math.

(** ** The FreeCAD value classes

    [fc.Vector], [fc.Rotation] and [fc.Placement] belong to the CAD host.  They
    are rendered here by what the host computes over the reals: a rotation is
    its quaternion (x, y, z, w), a placement a translation in millimetres and
    a rotation.  The host renormalises the quaternion of every rotation it
    builds, which leaves a unit quaternion as it is. *)

Module fc.

Record Vector : Type := mkVector { x : R; y : R; z : R }.

(** [v1 + v2]. *)
Definition Vector_add (a b : Vector) : Vector :=
  mkVector (x a + x b) (y a + y b) (z a + z b).

(** [v * k]. *)
Definition Vector_mul (a : Vector) (k : R) : Vector :=
  mkVector (x a * k) (y a * k) (z a * k).

(** [v / k]. *)
Definition Vector_div (a : Vector) (k : R) : Vector :=
  mkVector (x a / k) (y a / k) (z a / k).

Inductive Rotation : Type := mkRotation (q : R * R * R * R).

(** [fc.Rotation()], the null rotation. *)
Definition Rotation0 : Rotation := mkRotation (0, 0, 0, 1).

(** [fc.Rotation(axis, angle)]: [axis] a unit vector, [angle] in degrees.
    The host first reduces the angle modulo a full turn, which can only
    change the sign of the quaternion, not the rotation. *)
Definition Rotation_axis_angle (axis : Vector) (angle : R) : Rotation :=
  let a := angle * PI / 180 in
  mkRotation (x axis * sin (a / 2), y axis * sin (a / 2),
              z axis * sin (a / 2), cos (a / 2)).

(** [r1 * r2], the rotation that applies [r2] first. *)
Definition Rotation_mul (r1 r2 : Rotation) : Rotation :=
  let '(mkRotation (x0, y0, z0, w0)) := r1 in
  let '(mkRotation (x1, y1, z1, w1)) := r2 in
  mkRotation (  x0 * w1 + y0 * z1 - z0 * y1 + w0 * x1,
              - x0 * z1 + y0 * w1 + z0 * x1 + w0 * y1,
                x0 * y1 - y0 * x1 + z0 * w1 + w0 * z1,
              - x0 * x1 - y0 * y1 - z0 * z1 + w0 * w1).

(** [r.multVec(v)] (also [r * v]): the image of [v] under the rotation. *)
Definition multVec (r : Rotation) (v : Vector) : Vector :=
  let '(mkRotation (qx, qy, qz, qw)) := r in
  mkVector
    ((1 - 2 * (qy * qy + qz * qz)) * x v + 2 * (qx * qy - qz * qw) * y v
     + 2 * (qx * qz + qy * qw) * z v)
    (2 * (qx * qy + qz * qw) * x v + (1 - 2 * (qx * qx + qz * qz)) * y v
     + 2 * (qy * qz - qx * qw) * z v)
    (2 * (qx * qz - qy * qw) * x v + 2 * (qy * qz + qx * qw) * y v
     + (1 - 2 * (qx * qx + qy * qy)) * z v).

Inductive Placement : Type := mkPlacement (base : Vector) (rot : Rotation).

(** [bool(p)]: the host gives a placement no false value, so that
    [not placement] holds of [None] only. *)
Definition Placement_bool (p : Placement) : bool := true.

(** [fc.Matrix], a 4x4 homogeneous transform, by rows. *)
Definition Matrix : Type := list (list R).

(** [fc.Placement()], the identity placement. *)
Definition Placement0 : Placement := mkPlacement (mkVector 0 0 0) Rotation0.

(** [p1 * p2]: [p2] is applied first, then [p1]. *)
Definition Placement_mul (p1 p2 : Placement) : Placement :=
  let '(mkPlacement b1 r1) := p1 in
  let '(mkPlacement b2 r2) := p2 in
  mkPlacement (Vector_add b1 (multVec r1 b2)) (Rotation_mul r1 r2).

End fc.

(** [r.Q]. *)
Definition Q (r : fc.Rotation) : R * R * R * R :=
  let '(fc.mkRotation q) := r in q.

(** [p.Base]. *)
Definition Base (p : fc.Placement) : fc.Vector :=
  let '(fc.mkPlacement b _) := p in b.

(** [p.Rotation]. *)
Definition Rotation (p : fc.Placement) : fc.Rotation :=
  let '(fc.mkPlacement _ r) := p in r.

Declare Scope fc_scope.
Delimit Scope fc_scope with fc.
Infix "*" := fc.Placement_mul : fc_scope.

(** ** Typing hints *)

(** [Rpy = Tuple[float, float, float]]: roll, pitch, yaw. *)
Definition Rpy : Type := R * R * R.

(** [QuatList = Tuple[float, float, float, float]]: (qx, qy, qz, qw). *)
Definition QuatList : Type := R * R * R * R.

(** [np.array(quaternion[:4])]. *)
Definition array_of_quat (q : QuatList) : np.ndarray1 :=
  let '(qx, qy, qz, qw) := q in [qx; qy; qz; qw].

(** [np.finfo(float).eps], the binary64 machine epsilon. *)
Definition finfo_eps : R := / 2 ^ 52.

(** Small number to test whether a number is close to zero. *)
Definition _EPS : R := finfo_eps * 4.

(** ** Rotation conversion layer *)

(** The formulas of [quaternion_matrix] over the reals.  In binary64 the
    squared norm [nq] overflows for a component above about 1.3e154, and
    the differences [1 - q[1,1] - q[2,2]] lose their leading digits near
    gimbal lock, where they are of the order of the rounding of the
    products. *)
Definition quaternion_matrix (quaternion : QuatList) : np.ndarray2 :=
  let q := array_of_quat quaternion in
  let nq := np.dot q q in
  if Rlt_dec nq _EPS then np.identity 4
  else
    let q := np.scale (sqrt (2 / nq)) q in
    let q := np.outer q q in
    [ [1 - q.[1, 1] - q.[2, 2];     q.[0, 1] - q.[2, 3];     q.[0, 2] + q.[1, 3]; 0];
      [    q.[0, 1] + q.[2, 3]; 1 - q.[0, 0] - q.[2, 2];     q.[1, 2] - q.[0, 3]; 0];
      [    q.[0, 2] - q.[1, 3];     q.[1, 2] + q.[0, 3]; 1 - q.[0, 0] - q.[1, 1]; 0];
      [                      0;                       0;                       0; 1] ].

Definition euler_from_matrix (matrix : np.ndarray2) : Rpy :=
  let i := 0%nat in
  let j := 1%nat in
  let k := 2%nat in
  let M := np.slice 3 3 matrix in
  let cy := sqrt (M.[i, i] * M.[i, i] + M.[j, i] * M.[j, i]) in
  if Rlt_dec _EPS cy then
    let ax := math.atan2 M.[k, j] M.[k, k] in
    let ay := math.atan2 (- M.[k, i]) cy in
    let az := math.atan2 M.[j, i] M.[i, i] in
    (ax, ay, az)
  else
    let ax := math.atan2 (- M.[j, k]) M.[j, j] in
    let ay := math.atan2 (- M.[k, i]) cy in
    let az := 0 in
    (ax, ay, az).

Definition rpy_from_quaternion (q : QuatList) : Rpy :=
  euler_from_matrix (quaternion_matrix q).

Definition rotation_from_rpy (rpy : Rpy) : fc.Rotation :=
  let '(roll, pitch, yaw) := rpy in
  fc.Rotation_mul
    (fc.Rotation_mul
       (fc.Rotation_axis_angle (fc.mkVector 0 0 1) (np.degrees yaw))
       (fc.Rotation_axis_angle (fc.mkVector 0 1 0) (np.degrees pitch)))
    (fc.Rotation_axis_angle (fc.mkVector 1 0 0) (np.degrees roll)).

(** ** The rotation conversion in binary64

    The same code with the numbers it runs on.  Every sum, difference,
    product, quotient, square root and comparison is the binary64 one,
    rounded to nearest even; [np.dot] sums the four products from left to
    right.  [math.atan2] is left exact: it returns the angle of the two
    binary64 numbers it is given as a real number, of which the library
    function is the rounding. *)

Module binary64.

Import PrimFloat SpecFloat FloatOps.
Local Open Scope float_scope.

(** The real number a finite binary64 number stands for: mantissa times a
    power of two.  Infinities and NaN stand for nothing; they get zero. *)
Definition to_R (f : float) : R :=
  match Prim2SF f with
  | S754_finite s m e => (IZR (if s then Zneg m else Zpos m) * powerRZ 2 e)%R
  | _ => 0%R
  end.

(** The quaternion of real numbers that four binary64 numbers stand for. *)
Definition to_quat (q : float * float * float * float) : QuatList :=
  let '(qx, qy, qz, qw) := q in (to_R qx, to_R qy, to_R qz, to_R qw).

Definition ndarray1 : Type := list float.
Definition ndarray2 : Type := list (list float).

(** [np.dot(a, b)]. *)
Definition dot (a b : ndarray1) : float :=
  fold_left (fun acc p => acc + fst p * snd p) (combine a b) 0.

(** [a *= k]. *)
Definition scale (k : float) (a : ndarray1) : ndarray1 :=
  map (fun x => x * k) a.

(** [np.outer(a, b)]. *)
Definition outer (a b : ndarray1) : ndarray2 :=
  map (fun x => map (fun y => x * y) b) a.

(** [M[i, j]]. *)
Definition get (M : ndarray2) (i j : nat) : float := nth j (nth i M []) 0.

(** [np.identity(4)]. *)
Definition identity4 : ndarray2 :=
  [ [1; 0; 0; 0]; [0; 1; 0; 0]; [0; 0; 1; 0]; [0; 0; 0; 1] ].

Definition QuatList : Type := float * float * float * float.

(** [np.array(quaternion[:4], dtype=np.float64, copy=True)]. *)
Definition array_of_quat (q : QuatList) : ndarray1 :=
  let '(qx, qy, qz, qw) := q in [qx; qy; qz; qw].

(** [np.finfo(float).eps * 4.0]. *)
Definition _EPS : float := 0x1p-52 * 4.

Definition quaternion_matrix (quaternion : QuatList) : ndarray2 :=
  let q := array_of_quat quaternion in
  let nq := dot q q in
  if nq <? _EPS then identity4
  else
    let q := scale (sqrt (2 / nq)) q in
    let q := outer q q in
    [ [1 - get q 1 1 - get q 2 2; get q 0 1 - get q 2 3; get q 0 2 + get q 1 3; 0];
      [get q 0 1 + get q 2 3; 1 - get q 0 0 - get q 2 2; get q 1 2 - get q 0 3; 0];
      [get q 0 2 - get q 1 3; get q 1 2 + get q 0 3; 1 - get q 0 0 - get q 1 1; 0];
      [0; 0; 0; 1] ].

Definition euler_from_matrix (M : ndarray2) : Rpy :=
  let i := 0%nat in
  let j := 1%nat in
  let k := 2%nat in
  let cy := sqrt (get M i i * get M i i + get M j i * get M j i) in
  if _EPS <? cy then
    let ax := math.atan2 (to_R (get M k j)) (to_R (get M k k)) in
    let ay := math.atan2 (to_R (- get M k i)) (to_R cy) in
    let az := math.atan2 (to_R (get M j i)) (to_R (get M i i)) in
    (ax, ay, az)
  else
    let ax := math.atan2 (to_R (- get M j k)) (to_R (get M j j)) in
    let ay := math.atan2 (to_R (- get M k i)) (to_R cy) in
    let az := 0%R in
    (ax, ay, az).

Definition rpy_from_quaternion (q : QuatList) : Rpy :=
  euler_from_matrix (quaternion_matrix q).

(** The quaternion of roll 0.3, pitch pi/2 - 1e-15 and yaw 0.5 in binary64,
    in decimal (-0.07059288589999399, 0.7035741925769519,
    0.0705928858999943, 0.7035741925769526): a rotation close to gimbal
    lock, on the regular branch of [euler_from_matrix]. *)
Definition q_near_quarter_turn : QuatList :=
  (-0x1.2126018454ecep-4, 0x1.683ae066daf04p-1,
   0x1.2126018454ee4p-4, 0x1.683ae066daf0bp-1).

End binary64.

(** ** xml.etree.ElementTree *)

Set Warnings "-register-all".

Module et.

(** What a replacement field of a format string asks for: [{x}] writes
    [str(x)], every digit of the float; [{x:.n}] rounds it to [n]
    significant digits. *)
Inductive format_spec : Type :=
| spec_none
| spec_precision (n : nat).

(** Formatted text: literal characters and formatted floats.  The digits of
    a float are not spelled out, its format specification is kept. *)
Inductive piece : Type :=
| Lit (s : string)
| Float (spec : format_spec) (value : R).

Definition fstring : Type := list piece.

(** The tag of an element; [et.Comment] is the tag of a comment. *)
Inductive tag_t : Type :=
| Tag (name : string)
| Comment_tag.

Inductive Element : Type := mkElement {
  tag : tag_t;
  attrib : list (string * fstring);
  text : option string;
  children : list Element }.

(** [et.fromstring('<name k1="v1" ... />')]: the element the parser returns
    when the text is well formed and every value is read back as it was
    pasted, which is so for a name that is an XML name and for values of
    printable characters other than the ampersand, the less-than sign and
    the double quote.  On any other text the parser raises [ParseError],
    reads an entity or ends the attribute early; that is not rendered
    here. *)
Definition fromstring (name : string) (attrs : list (string * fstring)) : Element :=
  mkElement (Tag name) attrs None [].

(** [et.Comment(text)]. *)
Definition Comment (s : string) : Element :=
  mkElement Comment_tag [] (Some s) [].

(** [parent.append(child)]. *)
Definition append (parent child : Element) : Element :=
  mkElement (tag parent) (attrib parent) (text parent) (children parent ++ [child]).

(** [element.get(key)]. *)
Fixpoint get (attrs : list (string * fstring)) (key : string) : option fstring :=
  match attrs with
  | [] => None
  | (k, v) :: rest => if String.eqb k key then Some v else get rest key
  end.

End et.

(** ** Document objects *)

(** A length property; [Value] is in millimetres. *)
Record Quantity : Type := mkQuantity { Value : R }.

(** [quantity.getValueAs('m')]. *)
Definition getValueAs_m (quantity : Quantity) : R := Value quantity / 1000.

(** [fc.DocumentObject], with the attributes this module reads. *)
Inductive DO : Type := mkDO {
  TypeId : string;
  Label : string;
  Placement : fc.Placement;
  Length : Quantity;
  Width : Quantity;
  Height : Quantity;
  Radius : Quantity;
  Group : list DO;
  LinkedObject : option DO }.

(** The helpers imported from [freecad_utils] and [utils] and the link
    resolution of the host are not among the sources.  They are the
    parameters of the export layer: the shape-kind predicates, the flattening
    of an object into its leaves, the filesystem-safe transform of a label,
    and the resolution of a link to its target with the accumulated
    transform. *)
Class Host : Type := {
  get_leafs_and_subnames : DO -> list (DO * string);
  has_placement : DO -> bool;
  is_box : DO -> bool;
  is_cylinder : DO -> bool;
  is_group : DO -> bool;
  is_lcs : DO -> bool;
  is_fclink : DO -> bool;
  is_part : DO -> bool;
  is_sphere : DO -> bool;
  label_or : DO -> string;
  get_valid_filename : string -> string;
  xml_comment : string -> string;
  (** [obj.getLinkedObject(recursive=True, transform=True, matrix=fc.Matrix())] *)
  getLinkedObject : DO -> DO * fc.Matrix;
  (** [fc.Placement(matrix)] *)
  Placement_of_Matrix : fc.Matrix -> fc.Placement }.

(** A predicate of the host on an attribute that may be [None]: the
    predicates answer [False] on [None]. *)
Definition on_object (p : DO -> bool) (o : option DO) : bool :=
  match o with
  | Some d => p d
  | None => false
  end.

(** ** Exceptions and warnings *)

Inductive exception : Type :=
| RuntimeError (msg : string)
| ValueError (msg : string).

Inductive result (A : Type) : Type :=
| Ok (a : A)
| Raise (e : exception).

Arguments Ok {A} a.
Arguments Raise {A} e.

Definition bind {A B : Type} (r : result A) (k : A -> result B) : result B :=
  match r with
  | Ok a => k a
  | Raise e => Raise e
  end.

Notation "x <- c ;; k" := (bind c (fun x => k))
  (at level 61, c at next level, right associativity).

(** The double quote, for the messages that hold one. *)
Definition dq : string := String "034"%char EmptyString.

Local Open Scope string_scope.

(** ** Origin and geometry elements *)

Definition urdf_origin_from_placement (p : fc.Placement) : et.Element :=
  let '(r0, r1, r2) := rpy_from_quaternion (Q (Rotation p)) in
  let v := fc.Vector_mul (Base p) 1e-3 in
  et.fromstring "origin"
    [ ("xyz", [et.Float (et.spec_precision 6) (fc.x v); et.Lit " ";
               et.Float (et.spec_precision 6) (fc.y v); et.Lit " ";
               et.Float (et.spec_precision 6) (fc.z v)]);
      ("rpy", [et.Float et.spec_none r0; et.Lit " ";
               et.Float et.spec_none r1; et.Lit " ";
               et.Float et.spec_none r2]) ].

Definition urdf_geometry_box (length_x length_y length_z : R) : et.Element :=
  let geometry := et.fromstring "geometry" [] in
  et.append geometry
    (et.fromstring "box"
       [ ("size", [et.Float et.spec_none length_x; et.Lit " ";
                   et.Float et.spec_none length_y; et.Lit " ";
                   et.Float et.spec_none length_z]) ]).

Definition urdf_geometry_sphere (radius : R) : et.Element :=
  let geometry := et.fromstring "geometry" [] in
  et.append geometry
    (et.fromstring "sphere" [ ("radius", [et.Float et.spec_none radius]) ]).

Definition urdf_geometry_cylinder (radius length : R) : et.Element :=
  let geometry := et.fromstring "geometry" [] in
  et.append geometry
    (et.fromstring "cylinder"
       [ ("radius", [et.Float et.spec_none radius]);
         ("length", [et.Float et.spec_none length]) ]).

Definition urdf_geometry_mesh (mesh_name package_name : string) : et.Element :=
  let geometry := et.fromstring "geometry" [] in
  et.append geometry
    (et.fromstring "mesh"
       [ ("filename",
          [et.Lit ("package://" ++ package_name ++ "/meshes/" ++ mesh_name)]) ]).

Section ExportLayer.

Context `{Host}.

(** ** Placement of the centre of a primitive *)

Definition urdf_box_placement_from_object
    (box : DO) (placement : option fc.Placement) : result fc.Placement :=
  if negb (is_box box) then
    Raise (RuntimeError "First argument must be a 'Part::Box'")
  else
    let placement :=
      match placement with
      | None => Placement box
      | Some placement => placement
      end in
    let to_center :=
      fc.mkPlacement
        (fc.Vector_div
           (fc.mkVector (Value (Length box)) (Value (Width box)) (Value (Height box)))
           2)
        fc.Rotation0 in
    Ok (placement * to_center)%fc.

Definition urdf_sphere_placement_from_object
    (sphere : DO) (placement : option fc.Placement) : result fc.Placement :=
  if negb (is_sphere sphere) then
    Raise (RuntimeError "First argument must be a 'Part::Sphere'")
  else
    let placement :=
      match placement with
      | None => Placement sphere
      | Some placement => placement
      end in
    Ok placement.

Definition urdf_cylinder_placement_from_object
    (cyl : DO) (placement : option fc.Placement) : result fc.Placement :=
  if negb (is_cylinder cyl) then
    Raise (RuntimeError "Argument must be a 'Part::Cylinder'")
  else
    let placement :=
      match placement with
      | None => Placement cyl
      | Some placement => placement
      end in
    let to_center :=
      fc.mkPlacement (fc.mkVector 0 0 (Value (Height cyl) / 2)) fc.Rotation0 in
    Ok (placement * to_center)%fc.

(** ** Visual and collision elements of a primitive *)

Definition _urdf_generic_from_box
    (box : DO) (generic : string) (placement : fc.Placement)
    (ignore_obj_placement : bool) : result et.Element :=
  if negb (is_box box) then
    Raise (RuntimeError "Argument must be a 'Part::Box'")
  else
    let parent := et.fromstring generic [] in
    let placement :=
      if negb ignore_obj_placement then (placement * Placement box)%fc
      else placement in
    center_placement <- urdf_box_placement_from_object box (Some placement) ;;
    let parent := et.append parent (urdf_origin_from_placement center_placement) in
    let parent :=
      et.append parent
        (urdf_geometry_box (getValueAs_m (Length box)) (getValueAs_m (Width box))
                           (getValueAs_m (Height box))) in
    Ok parent.

Definition urdf_visual_from_box box placement ignore_obj_placement :=
  _urdf_generic_from_box box "visual" placement ignore_obj_placement.

Definition urdf_collision_from_box box placement ignore_obj_placement :=
  _urdf_generic_from_box box "collision" placement ignore_obj_placement.

Definition _urdf_generic_from_sphere
    (sphere : DO) (generic : string) (placement : fc.Placement)
    (ignore_obj_placement : bool) : result et.Element :=
  if negb (is_sphere sphere) then
    Raise (RuntimeError "Argument must be a 'Part::Sphere'")
  else
    let parent := et.fromstring generic [] in
    let placement :=
      if negb ignore_obj_placement then (placement * Placement sphere)%fc
      else placement in
    let parent :=
      et.append parent (urdf_geometry_sphere (getValueAs_m (Radius sphere))) in
    Ok parent.

Definition urdf_visual_from_sphere sphere placement ignore_obj_placement :=
  _urdf_generic_from_sphere sphere "visual" placement ignore_obj_placement.

Definition urdf_collision_from_sphere sphere placement ignore_obj_placement :=
  _urdf_generic_from_sphere sphere "collision" placement ignore_obj_placement.

Definition _urdf_generic_from_cylinder
    (cyl : DO) (generic : string) (placement : fc.Placement)
    (ignore_obj_placement : bool) : result et.Element :=
  if negb (is_cylinder cyl) then
    Raise (RuntimeError "Argument must be a 'Part::Cylinder'")
  else
    let parent := et.fromstring generic [] in
    let placement :=
      if negb ignore_obj_placement then (placement * Placement cyl)%fc
      else placement in
    center_placement <- urdf_cylinder_placement_from_object cyl (Some placement) ;;
    let parent := et.append parent (urdf_origin_from_placement center_placement) in
    let parent :=
      et.append parent
        (urdf_geometry_cylinder (getValueAs_m (Radius cyl)) (getValueAs_m (Height cyl))) in
    Ok parent.

Definition urdf_visual_from_cylinder cyl placement ignore_obj_placement :=
  _urdf_generic_from_cylinder cyl "visual" placement ignore_obj_placement.

Definition urdf_collision_from_cylinder cyl placement ignore_obj_placement :=
  _urdf_generic_from_cylinder cyl "collision" placement ignore_obj_placement.

(** ** Mesh references *)

Definition _urdf_generic_mesh
    (obj : DO) (mesh_name package_name generic : string)
    (placement : fc.Placement) : result et.Element :=
  if negb (fc.Placement_bool placement) && negb (has_placement obj) then
    Raise (RuntimeError
             "Argument must be a FreeCAD object with a 'Placement' attribute")
  else
    let parent := et.fromstring generic [] in
    let parent := et.append parent (et.Comment (xml_comment (Label obj))) in
    let parent := et.append parent (urdf_origin_from_placement placement) in
    let parent := et.append parent (urdf_geometry_mesh mesh_name package_name) in
    Ok parent.

Definition urdf_visual_mesh obj mesh_name package_name placement :=
  _urdf_generic_mesh obj mesh_name package_name "visual" placement.

Definition urdf_collision_mesh obj mesh_name package_name placement :=
  _urdf_generic_mesh obj mesh_name package_name "collision" placement.

(** ** The generic dispatcher *)

Record XmlForExport : Type := mkXmlForExport {
  xml : et.Element;
  object : DO;
  placement : fc.Placement;
  mesh_filename : string }.

(** [bool(package_name)]: [None] and the empty string are false. *)
Definition package_name_bool (package_name : option string) : bool :=
  match package_name with
  | None => false
  | Some name => negb (String.eqb name "")
  end.

(** [str(package_name)] where the name is put into the mesh reference. *)
Definition package_name_str (package_name : option string) : string :=
  match package_name with
  | None => "None"
  | Some name => name
  end.

Definition warning_no_package_name : string :=
  "Internal error, `package_name` empty but mesh found, using "
  ++ dq ++ "package" ++ dq.

(** The loop of [_urdf_generic_from_object] over the leaves that are left.
    [package_name] and [out_data] are the variables the loop updates, [log]
    the warnings emitted so far; an exception ends the loop. *)
Fixpoint _urdf_generic_from_object_loop
    (obj : DO) (generic : string) (placement : option fc.Placement)
    (leafs : list (DO * string))
    (package_name : option string) (out_data : list XmlForExport)
    (log : list string) : result (list XmlForExport) * list string :=
  match leafs with
  | [] => (Ok out_data, log)
  | (subobj, subname) :: leafs =>
      let '(linked_object, linked_matrix) := getLinkedObject subobj in
      let this_placement :=
        match placement with
        | None => Placement_of_Matrix linked_matrix
        | Some placement => (placement * Placement_of_Matrix linked_matrix)%fc
        end in
      let filename := "" in
      let '(xml, filename, package_name, log) :=
        if is_box linked_object then
          (_urdf_generic_from_box linked_object generic this_placement true,
           filename, package_name, log)
        else if is_sphere linked_object then
          (_urdf_generic_from_sphere linked_object generic this_placement true,
           filename, package_name, log)
        else if is_cylinder linked_object then
          (_urdf_generic_from_cylinder linked_object generic this_placement true,
           filename, package_name, log)
        else
          let filename :=
            get_valid_filename (Label (fst (getLinkedObject obj))) ++ ".dae" in
          let '(package_name, log) :=
            if negb (package_name_bool package_name) then
              (Some "package", (log ++ [warning_no_package_name])%list)
            else (package_name, log) in
          (_urdf_generic_mesh linked_object filename
             (package_name_str package_name) generic this_placement,
           filename, package_name, log) in
      match xml with
      | Raise e => (Raise e, log)
      | Ok xml =>
          _urdf_generic_from_object_loop obj generic placement leafs package_name
            (out_data ++ [mkXmlForExport xml linked_object this_placement filename])%list
            log
      end
  end.

Definition _urdf_generic_from_object
    (obj : DO) (generic : string) (package_name : option string)
    (placement : option fc.Placement)
    : result (list XmlForExport) * list string :=
  _urdf_generic_from_object_loop obj generic placement
    (get_leafs_and_subnames obj) package_name [] [].

Definition urdf_visual_from_object obj package_name placement :=
  _urdf_generic_from_object obj "visual" package_name placement.


(** ** Validation of a group of links *)

Definition warning_not_a_link (fc_link : DO) : string :=
  dq ++ label_or fc_link ++ dq ++ " is not a link, ignoring".

Definition warning_not_lcs_or_part (fc_link : DO) : string :=
  "Linked object of " ++ dq ++ label_or fc_link ++ dq
  ++ " is not a coordinate system or part, ignoring".

(** The loop of [export_group_with_lcs]; [log] holds the warnings emitted
    so far. *)
Fixpoint export_group_with_lcs_loop (fc_links : list DO) (log : list string)
    : list string :=
  match fc_links with
  | [] => log
  | fc_link :: fc_links =>
      if negb (is_fclink fc_link) then
        export_group_with_lcs_loop fc_links (log ++ [warning_not_a_link fc_link])%list
      else
        let linked_object := LinkedObject fc_link in
        if negb (on_object is_lcs linked_object || on_object is_part linked_object) then
          export_group_with_lcs_loop fc_links
            (log ++ [warning_not_lcs_or_part fc_link])%list
        else
          export_group_with_lcs_loop fc_links log
  end.

Definition export_group_with_lcs (group : DO) (package_path : string)
    : result bool * list string :=
  if negb (is_group group) then
    (Raise (ValueError
              ("First argument must be a group, i.e. " ++ dq
               ++ "App::DocumentObjectGroup" ++ dq)),
     [])
  else
    let fc_links := Group group in
    let log := export_group_with_lcs_loop fc_links [] in
    (Ok true, log).

End ExportLayer.

(** ** Vocabulary of the statements *)

(** The quaternion has norm one. *)
Definition unit_quaternion (q : QuatList) : Prop :=
  np.dot (array_of_quat q) (array_of_quat q) = 1.

(** Two rotations act alike on every vector. *)
Definition same_rotation (r1 r2 : fc.Rotation) : Prop :=
  forall v : fc.Vector, fc.multVec r1 v = fc.multVec r2 v.

(** The image of [v] under the upper-left 3x3 block of [M]. *)
Definition matrix_action (M : np.ndarray2) (v : fc.Vector) : fc.Vector :=
  fc.mkVector
    (M.[0, 0] * fc.x v + M.[0, 1] * fc.y v + M.[0, 2] * fc.z v)
    (M.[1, 0] * fc.x v + M.[1, 1] * fc.y v + M.[1, 2] * fc.z v)
    (M.[2, 0] * fc.x v + M.[2, 1] * fc.y v + M.[2, 2] * fc.z v).

(** The matrix Rz(yaw) Ry(pitch) Rx(roll) of the fixed-axis convention. *)
Definition rpy_matrix (rpy : Rpy) : np.ndarray2 :=
  let '(ax, ay, az) := rpy in
  [ [cos az * cos ay; cos az * sin ay * sin ax - sin az * cos ax;
       cos az * sin ay * cos ax + sin az * sin ax];
    [sin az * cos ay; sin az * sin ay * sin ax + cos az * cos ax;
       sin az * sin ay * cos ax - cos az * sin ax];
    [- sin ay; cos ay * sin ax; cos ay * cos ax] ].

(** [cy] as [euler_from_matrix] computes it on the matrix of [q]. *)
Definition cy_of_quaternion (q : QuatList) : R :=
  let M := quaternion_matrix q in
  sqrt (M.[0, 0] * M.[0, 0] + M.[1, 0] * M.[1, 0]).

(** The homogeneous matrix of a quarter turn about the y axis, in gimbal
    lock: [M[0,0] = M[1,0] = 0]. *)
Definition pitch_quarter_turn : np.ndarray2 :=
  [ [0; 0; 1; 0]; [0; 1; 0; 0]; [-1; 0; 0; 0]; [0; 0; 0; 1] ].

(** The same rotation as a unit quaternion; its matrix has [cy = 0]. *)
Definition q_gimbal_lock : QuatList := (0, sqrt 2 / 2, 0, sqrt 2 / 2).

(** A unit quaternion whose matrix has [0 < cy <= _EPS]: with
    [e = finfo_eps], [M[0,0] = 0] and [M[1,0] = 2e / (1 + e^2)]. *)
Definition q_near_gimbal : QuatList :=
  let e := finfo_eps in
  let d := 1 + e * e in
  ((2 * e + (1 - e * e)) / (2 * d), 1 / 2, 1 / 2, (2 * e - (1 - e * e)) / (2 * d)).

(** What a leaf of the dispatcher resolves to: the linked object. *)
Definition leaf_object `{Host} (leaf : DO * string) : DO :=
  fst (getLinkedObject (fst leaf)).

(** The placement the dispatcher computes for a leaf. *)
Definition leaf_placement `{Host} (placement : option fc.Placement)
    (leaf : DO * string) : fc.Placement :=
  let linked_matrix := snd (getLinkedObject (fst leaf)) in
  match placement with
  | None => Placement_of_Matrix linked_matrix
  | Some placement => (placement * Placement_of_Matrix linked_matrix)%fc
  end.

(** The leaf is none of the three primitives: the dispatcher emits a mesh
    reference for it. *)
Definition is_mesh_leaf `{Host} (leaf : DO * string) : bool :=
  negb (is_box (leaf_object leaf)) && negb (is_sphere (leaf_object leaf))
  && negb (is_cylinder (leaf_object leaf)).

(** The tags of the children of an element, in order. *)
Definition child_tags (e : et.Element) : list et.tag_t :=
  map et.tag (et.children e).

(** The [filename] attribute of the [<mesh>] of the last child of a
    [<visual>] or [<collision>] element. *)
Definition mesh_reference (e : et.Element) : option et.fstring :=
  match last (map Some (et.children e)) None with
  | Some geometry =>
      match et.children geometry with
      | [mesh] => et.get (et.attrib mesh) "filename"
      | _ => None
      end
  | None => None
  end.

(** Every float of the text was formatted with precision [n]. *)
Fixpoint all_precision (n : nat) (s : et.fstring) : bool :=
  match s with
  | [] => true
  | et.Lit _ :: s => all_precision n s
  | et.Float (et.spec_precision m) _ :: s => Nat.eqb m n && all_precision n s
  | et.Float et.spec_none _ :: s => false
  end.

(** The floats of the text, in order. *)
Fixpoint floats (s : et.fstring) : list R :=
  match s with
  | [] => []
  | et.Lit _ :: s => floats s
  | et.Float _ x :: s => x :: floats s
  end.

(** [x] is a decimal of at most [n] significant digits: an integer below
    [10^n] in absolute value, times or over a power of ten. *)
Definition significant_digits (n : nat) (x : R) : Prop :=
  exists (m : Z) (k : nat),
    (Z.abs m < 10 ^ Z.of_nat n)%Z /\ (x = IZR m * 10 ^ k \/ x = IZR m / 10 ^ k).

(** The placement at the origin, turned by a quarter turn about the z axis. *)
Definition quarter_turn_z : fc.Placement :=
  fc.mkPlacement (fc.mkVector 0 0 0) (fc.mkRotation (0, 0, sqrt 2 / 2, sqrt 2 / 2)).

(** [True] when the call raised a [RuntimeError]. *)
Definition raises_RuntimeError {A : Type} (r : result A) : bool :=
  match r with
  | Raise (RuntimeError _) => true
  | _ => false
  end.

(** A child that [export_group_with_lcs] accepts: a link to a coordinate
    system or to a part. *)
Definition conforming `{Host} (fc_link : DO) : bool :=
  is_fclink fc_link
  && (on_object is_lcs (LinkedObject fc_link) || on_object is_part (LinkedObject fc_link)).

(** The warning [export_group_with_lcs] emits for a child it skips. *)
Definition child_warning `{Host} (fc_link : DO) : string :=
  if is_fclink fc_link then warning_not_lcs_or_part fc_link
  else warning_not_a_link fc_link.

(** A placement that only translates. *)
Definition translation (v : fc.Vector) : fc.Placement :=
  fc.mkPlacement v fc.Rotation0.

(** The package name the mesh references of one call carry: the supplied
    name, or the fallback when none was supplied. *)
Definition effective_package_name (package_name : option string) : string :=
  if package_name_bool package_name then package_name_str package_name
  else "package".

(** The export record [r] is the one the dispatcher makes for [leaf] of
    [obj], with [package] as the package of mesh references. *)
Definition leaf_record `{Host} (obj : DO) (generic : string)
    (supplied : option fc.Placement) (package : string)
    (leaf : DO * string) (r : XmlForExport) : Prop :=
  object r = leaf_object leaf /\
  placement r = leaf_placement supplied leaf /\
  if is_box (leaf_object leaf) then
    mesh_filename r = "" /\
    _urdf_generic_from_box (object r) generic (placement r) true = Ok (xml r)
  else if is_sphere (leaf_object leaf) then
    mesh_filename r = "" /\
    _urdf_generic_from_sphere (object r) generic (placement r) true = Ok (xml r)
  else if is_cylinder (leaf_object leaf) then
    mesh_filename r = "" /\
    _urdf_generic_from_cylinder (object r) generic (placement r) true = Ok (xml r)
  else
    mesh_filename r
    = get_valid_filename (Label (fst (getLinkedObject obj))) ++ ".dae" /\
    _urdf_generic_mesh (object r) (mesh_filename r) package generic (placement r)
    = Ok (xml r).

(** ** A small document for the examples *)

Module demo.

Definition type_is (typeid : string) (obj : DO) : bool :=
  String.eqb (TypeId obj) typeid.

(** The target of a chain of links. *)
Fixpoint resolve (obj : DO) : DO :=
  match obj with
  | mkDO _ _ _ _ _ _ _ _ (Some target) => resolve target
  | _ => obj
  end.

(** The leaves of an object: the members of a group or part, flattened, or
    the object itself. *)
Fixpoint leafs (obj : DO) : list (DO * string) :=
  match obj with
  | mkDO _ _ _ _ _ _ _ [] _ => [(obj, "")]
  | mkDO _ _ _ _ _ _ _ members _ =>
      (fix members_leafs (l : list DO) : list (DO * string) :=
         match l with
         | [] => []
         | member :: l => (leafs member ++ members_leafs l)%list
         end) members
  end.

Definition valid_char (c : ascii) : ascii :=
  let n := nat_of_ascii c in
  if ((48 <=? n) && (n <=? 57) || (65 <=? n) && (n <=? 90)
      || (97 <=? n) && (n <=? 122) || (n =? 45) || (n =? 46) || (n =? 95))%nat
  then c else "_"%char.

Fixpoint map_string (f : ascii -> ascii) (s : string) : string :=
  match s with
  | EmptyString => EmptyString
  | String c s => String (f c) (map_string f s)
  end.

(** The transform of a translation into a matrix, and back. *)
Definition matrix_of_base (v : fc.Vector) : fc.Matrix :=
  [ [1; 0; 0; fc.x v]; [0; 1; 0; fc.y v]; [0; 0; 1; fc.z v]; [0; 0; 0; 1] ]%R.

Definition placement_of_matrix (m : fc.Matrix) : fc.Placement :=
  translation (fc.mkVector m.[0, 3] m.[1, 3] m.[2, 3]).

(** Modelled from the spec: a host for the examples, in place of
    [freecad_utils], [utils] and the link resolution of FreeCAD, which are
    not among the sources.  The kind of an object is read from its
    [TypeId], as the typing hints of [urdf_utils] say; the objects of the
    examples are not rotated. *)
Definition host : Host := {|
  get_leafs_and_subnames := leafs;
  has_placement := fun _ => true;
  is_box := type_is "Part::Box";
  is_cylinder := type_is "Part::Cylinder";
  is_group := type_is "App::DocumentObjectGroup";
  is_lcs := type_is "PartDesign::CoordinateSystem";
  is_fclink := type_is "App::Link";
  is_part := type_is "App::Part";
  is_sphere := type_is "Part::Sphere";
  label_or := Label;
  get_valid_filename := map_string valid_char;
  xml_comment := fun s => s;
  getLinkedObject := fun obj =>
    (resolve obj, matrix_of_base (Base (Placement (resolve obj))));
  Placement_of_Matrix := placement_of_matrix |}.

Definition no_length : Quantity := mkQuantity 0.

Definition shape (typeid label : string) (l w h r : R) : DO :=
  mkDO typeid label fc.Placement0 (mkQuantity l) (mkQuantity w) (mkQuantity h)
       (mkQuantity r) [] None.

Definition box : DO := shape "Part::Box" "Box" 2 4 6 0.
Definition cylinder : DO := shape "Part::Cylinder" "Cylinder" 0 0 10 5.
Definition sphere : DO := shape "Part::Sphere" "Sphere" 0 0 0 5.
Definition arm : DO := shape "Part::Feature" "Arm" 0 0 0 0.
Definition hand : DO := shape "Part::Feature" "Hand" 0 0 0 0.

(** A group of two shapes that are no primitives. *)
Definition assembly : DO :=
  mkDO "App::DocumentObjectGroup" "Assembly" fc.Placement0
       no_length no_length no_length no_length [arm; hand] None.

(** A group of a box, a cylinder and a shape that is no primitive. *)
Definition workcell : DO :=
  mkDO "App::Part" "Work cell" fc.Placement0
       no_length no_length no_length no_length [box; cylinder; arm] None.

Definition frame : DO := shape "PartDesign::CoordinateSystem" "LCS" 0 0 0 0.

Definition link_to (label : string) (target : DO) : DO :=
  mkDO "App::Link" label fc.Placement0
       no_length no_length no_length no_length [] (Some target).

(** A group with a conforming link, a link to a box and a plain box. *)
Definition joints : DO :=
  mkDO "App::DocumentObjectGroup" "Joints" fc.Placement0
       no_length no_length no_length no_length
       [link_to "Link to LCS" frame; link_to "Link to box" box; box] None.

End demo.

(** ** Vocabulary of the further properties *)

(** [dot(q, q)] of a quaternion. *)
Definition norm2 (q : QuatList) : R :=
  np.dot (array_of_quat q) (array_of_quat q).

(** The quaternion [k * q]. *)
Definition quat_scale (k : R) (q : QuatList) : QuatList :=
  let '(qx, qy, qz, qw) := q in (k * qx, k * qy, k * qz, k * qw).

(** The dot product of rows [i] and [j] of the upper-left 3x3 block. *)
Definition row_dot (M : np.ndarray2) (i j : nat) : R :=
  M.[i, 0] * M.[j, 0] + M.[i, 1] * M.[j, 1] + M.[i, 2] * M.[j, 2].

(** The determinant of the upper-left 3x3 block. *)
Definition det3 (M : np.ndarray2) : R :=
  M.[0, 0] * (M.[1, 1] * M.[2, 2] - M.[1, 2] * M.[2, 1])
  - M.[0, 1] * (M.[1, 0] * M.[2, 2] - M.[1, 2] * M.[2, 0])
  + M.[0, 2] * (M.[1, 0] * M.[2, 1] - M.[1, 1] * M.[2, 0]).

(** The upper-left 3x3 block is a rotation: its rows are orthonormal and
    its determinant is one. *)
Definition rotation_block (M : np.ndarray2) : Prop :=
  (forall i j, (i < 3)%nat -> (j < 3)%nat ->
               row_dot M i j = if Nat.eqb i j then 1 else 0) /\
  det3 M = 1.

(** A homogeneous rotation matrix: 4x4, a rotation as upper-left block, no
    translation and the last row (0, 0, 0, 1). *)
Definition homogeneous_rotation (M : np.ndarray2) : Prop :=
  np.shape 4 4 M /\ rotation_block M /\
  (forall i, (i < 3)%nat -> M.[i, 3] = 0 /\ M.[3, i] = 0) /\
  M.[3, 3] = 1.

(** The turn of a vector by the angle [a] about the x, y and z axis. *)
Definition rot_x (a : R) (v : fc.Vector) : fc.Vector :=
  fc.mkVector (fc.x v) (cos a * fc.y v - sin a * fc.z v)
              (sin a * fc.y v + cos a * fc.z v).

Definition rot_y (a : R) (v : fc.Vector) : fc.Vector :=
  fc.mkVector (cos a * fc.x v + sin a * fc.z v) (fc.y v)
              (- sin a * fc.x v + cos a * fc.z v).

Definition rot_z (a : R) (v : fc.Vector) : fc.Vector :=
  fc.mkVector (cos a * fc.x v - sin a * fc.y v)
              (sin a * fc.x v + cos a * fc.y v) (fc.z v).

(** The three angles as a list. *)
Definition rpy_list (rpy : Rpy) : list R :=
  let '(roll, pitch, yaw) := rpy in [roll; pitch; yaw].

(** A vector in metres, as the three values of an [xyz] attribute. *)
Definition metres (v : fc.Vector) : list R :=
  [fc.x v / 1000; fc.y v / 1000; fc.z v / 1000].

(** The floats of an attribute of an element; none when it is missing. *)
Definition attribute_floats (e : et.Element) (key : string) : list R :=
  match et.get (et.attrib e) key with
  | Some s => floats s
  | None => []
  end.

(** The placement an emitter works with: the supplied one, composed with
    the placement of the object unless that is to be ignored. *)
Definition emitter_placement (obj : DO) (supplied : fc.Placement)
    (ignore_obj_placement : bool) : fc.Placement :=
  if ignore_obj_placement then supplied else (supplied * Placement obj)%fc.

(** Where the centre of a shape lies: the base of the placement, moved by
    the rotated offset. *)
Definition centre (p : fc.Placement) (offset : fc.Vector) : fc.Vector :=
  fc.Vector_add (Base p) (fc.multVec (Rotation p) offset).


(** A squared norm that binary64 handles as the reals do: well above the
    threshold of the degenerate branch, so that rounding does not change the
    branch, and below 2^1000, so that neither the squares nor their sum
    overflow. *)
Definition norm2_in_range (n : R) : Prop := 2 * _EPS <= n <= 2 ^ 1000.

(** The two roles of an element of a link, the values the public functions
    give to [generic]. *)
Definition role (generic : string) : Prop :=
  generic = "visual" \/ generic = "collision".

(** A character that the parser reads back as it was pasted between the
    double quotes of an attribute: printable ASCII other than the double
    quote (34), the ampersand (38) and the less-than sign (60). *)
Definition plain_char (c : ascii) : bool :=
  let n := nat_of_ascii c in
  ((32 <=? n) && (n <=? 126)
   && negb (n =? 34) && negb (n =? 38) && negb (n =? 60))%nat.

(** A text of such characters only. *)
Fixpoint plain_text (s : string) : bool :=
  match s with
  | EmptyString => true
  | String c s => plain_char c && plain_text s
  end.

(** The file name the dispatcher gives to the meshes of one call: the
    transform of the label of the object the call was made on. *)
Definition mesh_file `{Host} (obj : DO) : string :=
  get_valid_filename (Label (fst (getLinkedObject obj))) ++ ".dae".

(** Every leaf of the object links to an object with a placement: the
    test of the mesh emitter passes whatever the truth value of the
    placement it is given. *)
Definition leaves_have_placement `{Host} (obj : DO) : Prop :=
  Forall (fun leaf => has_placement (leaf_object leaf) = true)
         (get_leafs_and_subnames obj).

(** Equality of two array literals, entry by entry. *)
Ltac array_eq :=
  repeat match goal with
         | |- _ :: _ = _ :: _ => apply f_equal2
         | |- [] = [] => reflexivity
         end.

(** The real number of a binary64 literal, by computation of its mantissa
    and exponent. *)
Ltac to_R_value :=
  unfold binary64.to_R;
  match goal with
  | |- context [FloatOps.Prim2SF ?f] =>
      let v := eval vm_compute in (FloatOps.Prim2SF f) in
      change (FloatOps.Prim2SF f) with v
  end;
  cbv iota beta; cbn [powerRZ];
  repeat match goal with
         | |- context [Pos.to_nat ?p] =>
             let n := eval vm_compute in (Pos.to_nat p) in
             change (Pos.to_nat p) with n
         end;
  lra.

(** * Properties *)

(** ** Trigonometry of [atan2] *)

Lemma sqrt_hypot_scaled (x y : R) :
  0 < x -> sqrt (x * x + y * y) = x * sqrt (1 + (y / x)²).
Proof.
  intros Hx.
  apply sqrt_lem_1.
  - nra.
  - apply Rmult_le_pos; [lra | apply sqrt_pos].
  - assert (H1 : 0 <= 1 + (y / x)²) by (unfold Rsqr; nra).
    replace (x * sqrt (1 + (y / x)²) * (x * sqrt (1 + (y / x)²)))
      with (x * x * (sqrt (1 + (y / x)²) * sqrt (1 + (y / x)²))) by ring.
    rewrite (sqrt_sqrt _ H1). unfold Rsqr. field. lra.
Qed.

Lemma sqrt_hypot_neg (x y : R) :
  x < 0 -> sqrt (x * x + y * y) = - x * sqrt (1 + (y / x)²).
Proof.
  intros Hx.
  replace (x * x + y * y) with ((- x) * (- x) + (- y) * (- y)) by ring.
  rewrite (sqrt_hypot_scaled (- x) (- y)) by lra.
  replace (- y / - x) with (y / x) by (field; lra). reflexivity.
Qed.

Lemma sqrt_1_sqr_pos (t : R) : 0 < sqrt (1 + t²).
Proof. apply sqrt_lt_R0. unfold Rsqr. nra. Qed.

Lemma cos_atan2 (y x : R) :
  x <> 0 \/ y <> 0 -> cos (math.atan2 y x) = x / sqrt (x * x + y * y).
Proof.
  intros Hxy. unfold math.atan2.
  pose proof (sqrt_1_sqr_pos (y / x)) as Hs.
  destruct (Rlt_dec 0 x) as [Hx | Hx].
  - rewrite cos_atan, sqrt_hypot_scaled by assumption. field. lra.
  - destruct (Rlt_dec x 0) as [Hx' | Hx'].
    + rewrite sqrt_hypot_neg by assumption.
      destruct (Rle_dec 0 y).
      * rewrite neg_cos, cos_atan. field. lra.
      * replace (atan (y / x) - PI) with (- (- atan (y / x) + PI)) by ring.
        rewrite cos_neg, neg_cos, cos_neg, cos_atan. field. lra.
    + assert (x = 0) by lra. subst x.
      destruct (Rlt_dec 0 y); [| destruct (Rlt_dec y 0)].
      * rewrite cos_PI2. unfold Rdiv. ring.
      * rewrite cos_neg, cos_PI2. unfold Rdiv. ring.
      * exfalso. destruct Hxy; lra.
Qed.

Lemma sin_atan2 (y x : R) :
  x <> 0 \/ y <> 0 -> sin (math.atan2 y x) = y / sqrt (x * x + y * y).
Proof.
  intros Hxy. unfold math.atan2.
  pose proof (sqrt_1_sqr_pos (y / x)) as Hs.
  destruct (Rlt_dec 0 x) as [Hx | Hx].
  - rewrite sin_atan, sqrt_hypot_scaled by assumption. field. lra.
  - destruct (Rlt_dec x 0) as [Hx' | Hx'].
    + rewrite sqrt_hypot_neg by assumption.
      destruct (Rle_dec 0 y).
      * rewrite neg_sin, sin_atan. field. lra.
      * replace (atan (y / x) - PI) with (- (- atan (y / x) + PI)) by ring.
        rewrite sin_neg, neg_sin, sin_neg, sin_atan. field. lra.
    + assert (x = 0) by lra. subst x.
      replace (0 * 0 + y * y) with (y * y) by ring.
      destruct (Rlt_dec 0 y); [| destruct (Rlt_dec y 0)].
      * rewrite sin_PI2, sqrt_square by lra. field. lra.
      * rewrite sin_neg, sin_PI2.
        replace (y * y) with (- y * - y) by ring.
        rewrite sqrt_square by lra. field. lra.
      * exfalso. destruct Hxy; lra.
Qed.

(** ** The rotation matrices *)

Lemma _EPS_pos : 0 < _EPS.
Proof.
  unfold _EPS, finfo_eps.
  apply Rmult_lt_0_compat; [| lra].
  apply Rinv_0_lt_compat, pow_lt. lra.
Qed.

Lemma _EPS_small : _EPS < 1.
Proof.
  unfold _EPS, finfo_eps.
  assert (H : 8 <= 2 ^ 52).
  { change 52%nat with (3 + 49)%nat. rewrite pow_add.
    replace 8 with (2 ^ 3 * 1) by (simpl; ring).
    apply Rmult_le_compat_l; [simpl; lra |].
    apply pow_R1_Rle. lra. }
  assert (H2 : / 2 ^ 52 <= / 8).
  { apply Rinv_le_contravar; lra. }
  lra.
Qed.

Lemma _EPS_sixteenth : _EPS <= / 16.
Proof.
  unfold _EPS, finfo_eps.
  assert (H : 64 <= 2 ^ 52).
  { replace 64 with (2 ^ 6) by (simpl; ring). apply Rle_pow; [lra | lia]. }
  assert (H2 : / 2 ^ 52 <= / 64) by (apply Rinv_le_contravar; lra).
  lra.
Qed.

Lemma half_angle (deg : R) : np.degrees deg * PI / 180 / 2 = deg / 2.
Proof. unfold np.degrees. field. apply PI_neq0. Qed.

Lemma sin_half (a : R) : sin a = 2 * sin (a / 2) * cos (a / 2).
Proof. rewrite <- sin_2a. f_equal. field. Qed.

Lemma cos_half (a : R) : cos a = cos (a / 2) * cos (a / 2) - sin (a / 2) * sin (a / 2).
Proof. rewrite <- cos_2a. f_equal. field. Qed.

Lemma sin2_cos2_half (a : R) : sin (a / 2) * sin (a / 2) + cos (a / 2) * cos (a / 2) = 1.
Proof. apply (sin2_cos2 (a / 2)). Qed.

(** A rotation built from roll, pitch and yaw acts as Rz Ry Rx. *)
Lemma rotation_from_rpy_action (rpy : Rpy) (v : fc.Vector) :
  fc.multVec (rotation_from_rpy rpy) v = matrix_action (rpy_matrix rpy) v.
Proof.
  destruct rpy as [[ax ay] az]. destruct v as [vx vy vz].
  unfold rotation_from_rpy, fc.Rotation_axis_angle, matrix_action, rpy_matrix, np.get.
  cbn [fc.x fc.y fc.z fc.Rotation_mul fc.multVec nth].
  rewrite !half_angle.
  rewrite (sin_half ax), (cos_half ax), (sin_half ay), (cos_half ay),
    (sin_half az), (cos_half az).
  pose proof (sin2_cos2_half ax) as Hx.
  pose proof (sin2_cos2_half ay) as Hy.
  pose proof (sin2_cos2_half az) as Hz.
  generalize dependent (sin (ax / 2)). generalize dependent (cos (ax / 2)).
  generalize dependent (sin (ay / 2)). generalize dependent (cos (ay / 2)).
  generalize dependent (sin (az / 2)). generalize dependent (cos (az / 2)).
  intros cz sz Hz cy sy Hy cx sx Hx.
  f_equal; nsatz.
Qed.

(** The matrix of a unit quaternion, entry by entry. *)
Lemma quaternion_matrix_unit (x y z w : R) :
  unit_quaternion (x, y, z, w) ->
  quaternion_matrix (x, y, z, w) =
  [ [1 - 2 * (y * y + z * z); 2 * (x * y - z * w); 2 * (x * z + y * w); 0];
    [2 * (x * y + z * w); 1 - 2 * (x * x + z * z); 2 * (y * z - x * w); 0];
    [2 * (x * z - y * w); 2 * (y * z + x * w); 1 - 2 * (x * x + y * y); 0];
    [0; 0; 0; 1] ].
Proof.
  unfold unit_quaternion, quaternion_matrix, array_of_quat. cbn [np.dot].
  intros U. rewrite U.
  destruct (Rlt_dec 1 _EPS) as [Hlt | _].
  { pose proof _EPS_small. lra. }
  assert (Hs : sqrt (2 / 1) * sqrt (2 / 1) = 2).
  { rewrite sqrt_sqrt; lra. }
  unfold np.scale, np.outer, np.get. cbn [map nth].
  generalize dependent (sqrt (2 / 1)). intros s Hs.
  array_eq; try reflexivity; nsatz.
Qed.

(** A rotation given by a unit quaternion acts as the matrix of the quaternion. *)
Lemma quaternion_matrix_action (q : QuatList) (v : fc.Vector) :
  unit_quaternion q ->
  fc.multVec (fc.mkRotation q) v = matrix_action (quaternion_matrix q) v.
Proof.
  destruct q as [[[x y] z] w]. intros U.
  rewrite (quaternion_matrix_unit _ _ _ _ U).
  unfold matrix_action, np.get. cbn [nth fc.multVec]. reflexivity.
Qed.

(** Off the gimbal-lock band, the angles read from the matrix of a unit
    quaternion rebuild that matrix. *)
Lemma rpy_matrix_of_quaternion (q : QuatList) :
  unit_quaternion q ->
  _EPS < cy_of_quaternion q \/ cy_of_quaternion q = 0 ->
  rpy_matrix (rpy_from_quaternion q) = np.slice 3 3 (quaternion_matrix q).
Proof.
  destruct q as [[[x y] z] w]. intros U Hcy.
  unfold cy_of_quaternion, rpy_from_quaternion in *.
  rewrite (quaternion_matrix_unit _ _ _ _ U) in *.
  unfold euler_from_matrix, np.slice, np.get in *. cbn [firstn map nth] in *.
  unfold unit_quaternion, array_of_quat in U. cbn [np.dot] in U.
  set (m00 := 1 - 2 * (y * y + z * z)) in *.
  set (m01 := 2 * (x * y - z * w)) in *.
  set (m02 := 2 * (x * z + y * w)) in *.
  set (m10 := 2 * (x * y + z * w)) in *.
  set (m11 := 1 - 2 * (x * x + z * z)) in *.
  set (m12 := 2 * (y * z - x * w)) in *.
  set (m20 := 2 * (x * z - y * w)) in *.
  set (m21 := 2 * (y * z + x * w)) in *.
  set (m22 := 1 - 2 * (x * x + y * y)) in *.
  assert (N0 : m00 * m00 + m10 * m10 + m20 * m20 = 1)
    by (unfold m00, m10, m20; nsatz).
  assert (N1 : m10 * m10 + m11 * m11 + m12 * m12 = 1)
    by (unfold m10, m11, m12; nsatz).
  assert (N2 : m20 * m20 + m21 * m21 + m22 * m22 = 1)
    by (unfold m20, m21, m22; nsatz).
  assert (K1 : m01 = m12 * m20 - m10 * m22)
    by (unfold m01, m12, m20, m10, m22; nsatz).
  assert (K2 : m02 = m10 * m21 - m11 * m20)
    by (unfold m02, m10, m21, m11, m20; nsatz).
  assert (K3 : m11 = m00 * m22 - m02 * m20)
    by (unfold m11, m00, m22, m02, m20; nsatz).
  assert (K4 : m12 = m01 * m20 - m00 * m21)
    by (unfold m12, m01, m20, m00, m21; nsatz).
  clearbody m00 m01 m02 m10 m11 m12 m20 m21 m22. clear U.
  set (c := sqrt (m00 * m00 + m10 * m10)) in *.
  assert (Hc : c * c = m00 * m00 + m10 * m10) by (apply sqrt_sqrt; nra).
  assert (Hc0 : 0 <= c) by apply sqrt_pos.
  clearbody c.
  assert (Hone : sqrt (c * c + - m20 * - m20) = 1).
  { replace (c * c + - m20 * - m20) with 1 by lra. apply sqrt_1. }
  assert (Cay : cos (math.atan2 (- m20) c) = c).
  { rewrite cos_atan2, Hone; [field |].
    destruct (Req_dec c 0); [right | left; assumption]. nra. }
  assert (Say : sin (math.atan2 (- m20) c) = - m20).
  { rewrite sin_atan2, Hone; [field |].
    destruct (Req_dec c 0); [right | left; assumption]. nra. }
  pose proof _EPS_pos as Heps.
  destruct (Rlt_dec _EPS c) as [Hnd | Hdeg]; unfold rpy_matrix.
  - assert (Hpos : 0 < c) by lra.
    assert (Caz : cos (math.atan2 m10 m00) = m00 / c).
    { rewrite cos_atan2.
      - rewrite <- Hc, sqrt_square by lra. reflexivity.
      - destruct (Req_dec m00 0); [right | left; assumption]. nra. }
    assert (Saz : sin (math.atan2 m10 m00) = m10 / c).
    { rewrite sin_atan2.
      - rewrite <- Hc, sqrt_square by lra. reflexivity.
      - destruct (Req_dec m00 0); [right | left; assumption]. nra. }
    assert (Hrow : m22 * m22 + m21 * m21 = c * c) by lra.
    assert (Cax : cos (math.atan2 m21 m22) = m22 / c).
    { rewrite cos_atan2.
      - rewrite Hrow, sqrt_square by lra. reflexivity.
      - destruct (Req_dec m22 0); [right | left; assumption]. nra. }
    assert (Sax : sin (math.atan2 m21 m22) = m21 / c).
    { rewrite sin_atan2.
      - rewrite Hrow, sqrt_square by lra. reflexivity.
      - destruct (Req_dec m22 0); [right | left; assumption]. nra. }
    rewrite Cay, Say, Caz, Saz, Cax, Sax.
    assert (Hic : c * / c = 1) by (field; lra).
    unfold Rdiv. generalize dependent (/ c). intros ic Hic.
    array_eq; try reflexivity; nsatz.
  - assert (Hz : c = 0) by lra. subst c.
    assert (H00 : m00 = 0) by nra.
    assert (H10 : m10 = 0) by nra.
    assert (H21 : m21 = 0) by nra.
    assert (H22 : m22 = 0) by nra.
    assert (Hrow : m11 * m11 + - m12 * - m12 = 1) by nra.
    assert (Cax : cos (math.atan2 (- m12) m11) = m11).
    { rewrite cos_atan2.
      - rewrite Hrow, sqrt_1. field.
      - destruct (Req_dec m11 0); [right | left; assumption]. nra. }
    assert (Sax : sin (math.atan2 (- m12) m11) = - m12).
    { rewrite sin_atan2.
      - rewrite Hrow, sqrt_1. field.
      - destruct (Req_dec m11 0); [right | left; assumption]. nra. }
    rewrite Cay, Say, Cax, Sax, cos_0, sin_0.
    array_eq; try reflexivity; nsatz.
Qed.

(** ** Slices and the two branches of [euler_from_matrix] *)

Lemma get_slice (r c i j : nat) (M : np.ndarray2) :
  (i < r)%nat -> (j < c)%nat -> (np.slice r c M).[i, j] = M.[i, j].
Proof.
  intros Hi Hj. unfold np.get, np.slice.
  replace (nth i (map (firstn c) (firstn r M)) [])
    with (firstn c (nth i (firstn r M) [])).
  2:{ rewrite <- (map_nth (firstn c)). f_equal. apply firstn_nil. }
  rewrite !nth_firstn.
  apply Nat.ltb_lt in Hi, Hj. rewrite Hi, Hj.
  reflexivity.
Qed.

Lemma euler_from_matrix_regular (M : np.ndarray2) :
  _EPS < sqrt (M.[0, 0] * M.[0, 0] + M.[1, 0] * M.[1, 0]) ->
  euler_from_matrix M =
  (math.atan2 M.[2, 1] M.[2, 2],
   math.atan2 (- M.[2, 0]) (sqrt (M.[0, 0] * M.[0, 0] + M.[1, 0] * M.[1, 0])),
   math.atan2 M.[1, 0] M.[0, 0]).
Proof.
  intros H. unfold euler_from_matrix.
  rewrite !get_slice by lia.
  destruct (Rlt_dec _ _) as [_ | Hn]; [reflexivity | contradiction].
Qed.

Lemma euler_from_matrix_gimbal (M : np.ndarray2) :
  sqrt (M.[0, 0] * M.[0, 0] + M.[1, 0] * M.[1, 0]) <= _EPS ->
  euler_from_matrix M =
  (math.atan2 (- M.[1, 2]) M.[1, 1],
   math.atan2 (- M.[2, 0]) (sqrt (M.[0, 0] * M.[0, 0] + M.[1, 0] * M.[1, 0])),
   0).
Proof.
  intros H. unfold euler_from_matrix.
  rewrite !get_slice by lia.
  destruct (Rlt_dec _ _) as [Hn | _]; [lra | reflexivity].
Qed.

(** ** Round trip through roll, pitch and yaw *)

Lemma matrix_action_slice (M : np.ndarray2) (v : fc.Vector) :
  matrix_action (np.slice 3 3 M) v = matrix_action M v.
Proof. unfold matrix_action. rewrite !get_slice by lia. reflexivity. Qed.

Lemma unit_quaternion_identity : unit_quaternion (0, 0, 0, 1).
Proof. unfold unit_quaternion. cbn. ring. Qed.

Lemma cy_of_quaternion_identity : cy_of_quaternion (0, 0, 0, 1) = 1.
Proof.
  unfold cy_of_quaternion.
  rewrite (quaternion_matrix_unit _ _ _ _ unit_quaternion_identity).
  unfold np.get. cbn [nth].
  match goal with |- sqrt ?a = _ => replace a with 1 by ring end.
  apply sqrt_1.
Qed.

Lemma half_sqrt2_sqr : sqrt 2 / 2 * (sqrt 2 / 2) = 1 / 2.
Proof.
  replace (sqrt 2 / 2 * (sqrt 2 / 2)) with (sqrt 2 * sqrt 2 / 4) by field.
  rewrite sqrt_sqrt; lra.
Qed.

Lemma unit_quaternion_gimbal_lock : unit_quaternion q_gimbal_lock.
Proof.
  unfold unit_quaternion, q_gimbal_lock. cbn.
  pose proof half_sqrt2_sqr as E. lra.
Qed.

Lemma cy_of_quaternion_gimbal_lock : cy_of_quaternion q_gimbal_lock = 0.
Proof.
  unfold cy_of_quaternion.
  pose proof unit_quaternion_gimbal_lock as U. unfold q_gimbal_lock in *.
  rewrite (quaternion_matrix_unit _ _ _ _ U).
  unfold np.get. cbn [nth].
  pose proof half_sqrt2_sqr as E.
  match goal with |- sqrt ?a = _ => replace a with 0 by nra end.
  apply sqrt_0.
Qed.

(** The formulas over the reals: for every unit quaternion whose matrix is
    off the gimbal-lock band ([cy] above the threshold, or exactly zero),
    the rotation rebuilt by [rotation_from_rpy] from [rpy_from_quaternion q]
    has the same action as [q] on every vector.  The conversion is right as
    a piece of mathematics; what it loses, it loses to rounding. *)
Theorem rpy_round_trip (q : QuatList) :
  unit_quaternion q ->
  _EPS < cy_of_quaternion q \/ cy_of_quaternion q = 0 ->
  same_rotation (rotation_from_rpy (rpy_from_quaternion q)) (fc.mkRotation q).
Proof.
  intros U Hcy v.
  rewrite rotation_from_rpy_action, (quaternion_matrix_action q v U).
  rewrite (rpy_matrix_of_quaternion q U Hcy).
  apply matrix_action_slice.
Qed.

Lemma rpy_round_trip_witness :
  (unit_quaternion (0, 0, 0, 1) /\
   same_rotation (rotation_from_rpy (rpy_from_quaternion (0, 0, 0, 1)))
                 (fc.mkRotation (0, 0, 0, 1))) /\
  (unit_quaternion q_gimbal_lock /\ cy_of_quaternion q_gimbal_lock = 0 /\
   same_rotation (rotation_from_rpy (rpy_from_quaternion q_gimbal_lock))
                 (fc.mkRotation q_gimbal_lock)).
Proof.
  split; split.
  - exact unit_quaternion_identity.
  - apply (rpy_round_trip (0, 0, 0, 1) unit_quaternion_identity).
    left. rewrite cy_of_quaternion_identity. exact _EPS_small.
  - exact unit_quaternion_gimbal_lock.
  - split; [exact cy_of_quaternion_gimbal_lock |].
    apply (rpy_round_trip q_gimbal_lock unit_quaternion_gimbal_lock).
    right. exact cy_of_quaternion_gimbal_lock.
Defined.

Lemma finfo_eps_pos : 0 < finfo_eps.
Proof. pose proof _EPS_pos. unfold _EPS in *. lra. Qed.

Lemma unit_quaternion_near_gimbal : unit_quaternion q_near_gimbal.
Proof.
  unfold unit_quaternion, q_near_gimbal. cbn.
  pose proof finfo_eps_pos. field. nra.
Qed.

Lemma quaternion_matrix_near_gimbal :
  let M := quaternion_matrix q_near_gimbal in
  M.[0, 0] = 0 /\ M.[1, 0] = 2 * finfo_eps / (1 + finfo_eps * finfo_eps).
Proof.
  pose proof unit_quaternion_near_gimbal as U.
  unfold q_near_gimbal in *. cbv zeta in *.
  rewrite (quaternion_matrix_unit _ _ _ _ U).
  unfold np.get. cbn [nth].
  pose proof finfo_eps_pos.
  split; field; nra.
Qed.

Lemma cy_near_gimbal :
  cy_of_quaternion q_near_gimbal = 2 * finfo_eps / (1 + finfo_eps * finfo_eps).
Proof.
  unfold cy_of_quaternion.
  destruct quaternion_matrix_near_gimbal as [H0 H1]. cbv zeta.
  rewrite H0, H1.
  pose proof finfo_eps_pos as He.
  replace (0 * 0 + _) with
    ((2 * finfo_eps / (1 + finfo_eps * finfo_eps)) *
     (2 * finfo_eps / (1 + finfo_eps * finfo_eps))) by ring.
  apply sqrt_square.
  apply Rlt_le, Rdiv_lt_0_compat; nra.
Qed.

Lemma cy_near_gimbal_in_band :
  0 < cy_of_quaternion q_near_gimbal <= _EPS.
Proof.
  rewrite cy_near_gimbal. unfold _EPS.
  pose proof finfo_eps_pos as He.
  assert (Hd : 0 < 1 + finfo_eps * finfo_eps) by nra.
  split.
  - apply Rdiv_lt_0_compat; lra.
  - apply Rle_trans with (2 * finfo_eps); [| lra].
    apply (Rmult_le_reg_r (1 + finfo_eps * finfo_eps)); [assumption |].
    replace (2 * finfo_eps / (1 + finfo_eps * finfo_eps) * (1 + finfo_eps * finfo_eps))
      with (2 * finfo_eps) by (field; lra).
    nra.
Qed.

(** Inside the band the formulas are not exact even over the reals: on the
    unit quaternion [q_near_gimbal] the yaw is forced to zero although
    [M[1,0]] is not, and the rebuilt rotation sends the x axis elsewhere, by
    [M[1,0]], which is below the threshold. *)
Lemma rpy_round_trip_counterexample :
  unit_quaternion q_near_gimbal /\
  ~ same_rotation (rotation_from_rpy (rpy_from_quaternion q_near_gimbal))
                  (fc.mkRotation q_near_gimbal).
Proof.
  split; [exact unit_quaternion_near_gimbal |].
  intros H. specialize (H (fc.mkVector 1 0 0)).
  rewrite rotation_from_rpy_action in H.
  rewrite (quaternion_matrix_action _ _ unit_quaternion_near_gimbal) in H.
  unfold rpy_from_quaternion in H.
  destruct cy_near_gimbal_in_band as [Hlo Hhi].
  rewrite (euler_from_matrix_gimbal _ Hhi) in H.
  apply (f_equal fc.y) in H.
  unfold matrix_action, rpy_matrix in H.
  cbn [fc.x fc.y fc.z] in H.
  destruct quaternion_matrix_near_gimbal as [_ H1]. cbv zeta in H1.
  rewrite H1 in H.
  unfold np.get at 1 2 3 in H. cbn [nth] in H.
  rewrite sin_0 in H.
  rewrite cy_near_gimbal in Hlo. lra.
Qed.

(** ** The round trip in binary64 *)

(** Above the threshold the quaternion is normalised on the way: the entries
    are those of the unit quaternion [q / |q|]. *)
Lemma quaternion_matrix_normalised (x y z w : R) :
  let n := norm2 (x, y, z, w) in
  ~ n < _EPS ->
  quaternion_matrix (x, y, z, w) =
  [ [1 - 2 * (y * y + z * z) / n; 2 * (x * y - z * w) / n; 2 * (x * z + y * w) / n; 0];
    [2 * (x * y + z * w) / n; 1 - 2 * (x * x + z * z) / n; 2 * (y * z - x * w) / n; 0];
    [2 * (x * z - y * w) / n; 2 * (y * z + x * w) / n; 1 - 2 * (x * x + y * y) / n; 0];
    [0; 0; 0; 1] ].
Proof.
  intros n Hn. unfold quaternion_matrix. fold (norm2 (x, y, z, w)). fold n.
  destruct (Rlt_dec n _EPS) as [Hlt | _]; [contradiction |].
  pose proof _EPS_pos as He.
  assert (Hpos : 0 < n) by lra.
  assert (Hs : sqrt (2 / n) * sqrt (2 / n) = 2 / n).
  { apply sqrt_sqrt. apply Rlt_le, Rdiv_lt_0_compat; lra. }
  unfold array_of_quat, np.scale, np.outer, np.get. cbn [map nth].
  generalize dependent (sqrt (2 / n)). intros s Hs.
  assert (Hn0 : n <> 0) by lra.
  assert (Hi : n * / n = 1) by (field; assumption).
  unfold Rdiv in *. generalize dependent (/ n). intros i Hs Hi.
  clearbody n.
  array_eq; try reflexivity; nsatz.
Qed.

Section Binary64Values.

Import PrimFloat.

(** The matrix that binary64 arithmetic gives for [q_near_quarter_turn].
    The four entries that are of the order of 1e-15 keep a few bits only:
    they are 85, 40, 24 and 88 times 2^-56. *)
Lemma quaternion_matrix_near_quarter_turn :
  binary64.quaternion_matrix binary64.q_near_quarter_turn
  = [ [0x1.54p-50; -0x1.96dff233dd2bcp-3; 0x1.f5cb495776279p-1; 0];
      [0x1.4p-51; 0x1.f5cb49577627ap-1; 0x1.96dff233dd2bcp-3; 0];
      [-0x1.fffffffffffffp-1; 0x1.8p-52; 0x1.6p-50; 0];
      [0; 0; 0; 1] ]%float.
Proof. vm_compute. reflexivity. Qed.

(** The regular branch is taken, [cy] being 1.3e-15, and the angles are read
    off these entries. *)
Lemma rpy_near_quarter_turn :
  binary64.rpy_from_quaternion binary64.q_near_quarter_turn
  = (math.atan2 (binary64.to_R 0x1.8p-52) (binary64.to_R 0x1.6p-50),
     math.atan2 (binary64.to_R 0x1.fffffffffffffp-1)
                (binary64.to_R 0x1.77c41102b6842p-50),
     math.atan2 (binary64.to_R 0x1.4p-51) (binary64.to_R 0x1.54p-50)).
Proof.
  unfold binary64.rpy_from_quaternion.
  rewrite quaternion_matrix_near_quarter_turn.
  unfold binary64.euler_from_matrix.
  cbv [binary64.get nth].
  match goal with
  | |- context [ltb ?a ?b] =>
      let v := eval vm_compute in (ltb a b) in change (ltb a b) with v
  end.
  cbv iota zeta.
  repeat match goal with
         | |- context [binary64.to_R (opp ?a)] =>
             let v := eval vm_compute in (opp a) in change (opp a) with v
         | |- context [binary64.to_R (sqrt ?a)] =>
             let v := eval vm_compute in (sqrt a) in change (sqrt a) with v
         end.
  reflexivity.
Qed.

Lemma to_R_M00 : binary64.to_R 0x1.54p-50 = 85 * / 2 ^ 56.
Proof. to_R_value. Qed.

Lemma to_R_M10 : binary64.to_R 0x1.4p-51 = 40 * / 2 ^ 56.
Proof. to_R_value. Qed.

Lemma to_R_M21 : binary64.to_R 0x1.8p-52 = 24 * / 2 ^ 56.
Proof. to_R_value. Qed.

Lemma to_R_M22 : binary64.to_R 0x1.6p-50 = 88 * / 2 ^ 56.
Proof. to_R_value. Qed.

Lemma to_quat_near_quarter_turn :
  binary64.to_quat binary64.q_near_quarter_turn
  = (- 5086753514147534 * / 2 ^ 56, 6337232943034116 * / 2 ^ 53,
     5086753514147556 * / 2 ^ 56, 6337232943034123 * / 2 ^ 53).
Proof.
  unfold binary64.to_quat, binary64.q_near_quarter_turn.
  repeat f_equal; to_R_value.
Qed.

End Binary64Values.

Lemma sqrt_lower (l x : R) : 0 <= l -> l * l <= x -> l <= sqrt x.
Proof.
  intros Hl Hx. rewrite <- (sqrt_square l) by assumption.
  apply sqrt_le_1_alt. assumption.
Qed.

(** The entry [1, 2] of Rz Ry Rx for a roll [atan2 c d] and a yaw
    [atan2 b a] read off positive entries, whatever the pitch. *)
Lemma rebuilt_entry (a b c d pitch : R) :
  0 < a -> 0 < b -> 0 < c -> 0 < d ->
  (rpy_matrix (math.atan2 c d, pitch, math.atan2 b a)).[1, 2]
  <= (b * d - a * c) / (sqrt (a * a + b * b) * sqrt (d * d + c * c)).
Proof.
  intros Ha Hb Hc Hd. unfold rpy_matrix, np.get. cbn [nth].
  rewrite !cos_atan2, !sin_atan2 by (left; lra).
  assert (H1 : 0 < sqrt (a * a + b * b)) by (apply sqrt_lt_R0; nra).
  assert (H2 : 0 < sqrt (d * d + c * c)) by (apply sqrt_lt_R0; nra).
  set (s1 := sqrt (a * a + b * b)) in *. set (s2 := sqrt (d * d + c * c)) in *.
  pose proof (SIN_bound pitch) as [_ Hs].
  assert (Hp : 0 <= b / s1 * (d / s2)).
  { apply Rmult_le_pos; apply Rlt_le, Rdiv_lt_0_compat; assumption. }
  replace ((b * d - a * c) / (s1 * s2))
    with (b / s1 * (d / s2) * 1 - a / s1 * (c / s2)) by (field; lra).
  replace (b / s1 * sin pitch * (d / s2))
    with (b / s1 * (d / s2) * sin pitch) by ring.
  apply Rplus_le_compat_r. apply Rmult_le_compat_l; assumption.
Qed.

(** With the entries 85, 40, 24 and 88 times [u] that entry is the sine of
    yaw minus roll, 1480 / sqrt (8825 * 8320) = 0.1727..., at most. *)
Lemma rebuilt_entry_value (u pitch : R) :
  0 < u ->
  (rpy_matrix (math.atan2 (24 * u) (88 * u), pitch,
               math.atan2 (40 * u) (85 * u))).[1, 2]
  < 7 / 40.
Proof.
  intros Hu.
  eapply Rle_lt_trans; [apply rebuilt_entry; lra |].
  assert (H1 : 939 / 10 * u <= sqrt (85 * u * (85 * u) + 40 * u * (40 * u)))
    by (apply sqrt_lower; nra).
  assert (H2 : 912 / 10 * u <= sqrt (88 * u * (88 * u) + 24 * u * (24 * u)))
    by (apply sqrt_lower; nra).
  set (s1 := sqrt (85 * u * (85 * u) + 40 * u * (40 * u))) in *.
  set (s2 := sqrt (88 * u * (88 * u) + 24 * u * (24 * u))) in *.
  assert (Hs : 939 / 10 * u * (912 / 10 * u) <= s1 * s2)
    by (apply Rmult_le_compat; lra).
  assert (Huu : 0 < u * u) by nra.
  apply Rmult_lt_reg_r with (s1 * s2); [lra |].
  unfold Rdiv at 1. rewrite Rmult_assoc, Rinv_l by lra.
  nra.
Qed.

(** The quaternion is a unit quaternion to the precision of binary64, and
    the rotation it stands for has 0.1986... = sin 0.2 as entry [1, 2]. *)
Lemma near_quarter_turn_exact :
  let q := binary64.to_quat binary64.q_near_quarter_turn in
  Rabs (np.dot (array_of_quat q) (array_of_quat q) - 1) < _EPS /\
  197 / 1000 < (quaternion_matrix q).[1, 2].
Proof.
  cbv zeta. rewrite to_quat_near_quarter_turn.
  set (x := - 5086753514147534 * / 2 ^ 56).
  set (y := 6337232943034116 * / 2 ^ 53).
  set (z := 5086753514147556 * / 2 ^ 56).
  set (w := 6337232943034123 * / 2 ^ 53).
  assert (Hn : Rabs (norm2 (x, y, z, w) - 1) < _EPS).
  { apply Rabs_def1;
      unfold norm2, array_of_quat, np.dot, _EPS, finfo_eps, x, y, z, w; lra. }
  split; [exact Hn |].
  apply Rabs_def2 in Hn. pose proof _EPS_sixteenth as He.
  rewrite quaternion_matrix_normalised by lra.
  unfold np.get. cbn [nth].
  assert (Hp : 0 < norm2 (x, y, z, w)) by lra.
  apply Rmult_lt_reg_r with (norm2 (x, y, z, w)); [exact Hp |].
  unfold Rdiv at 2. rewrite Rmult_assoc, Rinv_l by lra.
  unfold norm2, array_of_quat, np.dot, x, y, z, w. lra.
Qed.

(** Over the reals the matrix of the quaternion is on the regular branch,
    with a margin: [cy] is 1.33 times the threshold. *)
Lemma near_quarter_turn_regular :
  _EPS < cy_of_quaternion (binary64.to_quat binary64.q_near_quarter_turn).
Proof.
  unfold cy_of_quaternion. rewrite to_quat_near_quarter_turn.
  set (x := - 5086753514147534 * / 2 ^ 56).
  set (y := 6337232943034116 * / 2 ^ 53).
  set (z := 5086753514147556 * / 2 ^ 56).
  set (w := 6337232943034123 * / 2 ^ 53).
  assert (Hn : 1 / 2 < norm2 (x, y, z, w) < 2).
  { unfold norm2, array_of_quat, np.dot, x, y, z, w; lra. }
  pose proof _EPS_sixteenth as He. pose proof _EPS_pos as Hp.
  rewrite quaternion_matrix_normalised by lra.
  unfold np.get. cbn [nth].
  apply Rlt_le_trans with (13 / 10 * _EPS); [lra |].
  apply sqrt_lower; [lra |].
  set (n := norm2 (x, y, z, w)) in *.
  assert (M00 : 118 / 100 * _EPS <= 1 - 2 * (y * y + z * z) / n).
  { apply Rmult_le_reg_r with n; [lra |].
    replace ((1 - 2 * (y * y + z * z) / n) * n)
      with (n - 2 * (y * y + z * z)) by (field; lra).
    unfold n, norm2, array_of_quat, np.dot, _EPS, finfo_eps, x, y, z, w. lra. }
  assert (M10 : 60 / 100 * _EPS <= 2 * (x * y + z * w) / n).
  { apply Rmult_le_reg_r with n; [lra |].
    replace (2 * (x * y + z * w) / n * n)
      with (2 * (x * y + z * w)) by (field; lra).
    unfold n, norm2, array_of_quat, np.dot, _EPS, finfo_eps, x, y, z, w. lra. }
  nra.
Qed.

(** C2: the round trip loses a rotation in binary64.  [q_near_quarter_turn]
    is a unit quaternion to the precision of binary64, whose matrix is on
    the regular branch, where the formulas are exact over the reals.  Yet
    the rotation that [rotation_from_rpy] rebuilds from the angles
    [rpy_from_quaternion] computes for it in binary64 sends the z axis
    elsewhere than the rotation of the quaternion does: the y coordinates of
    the two images differ by more than 0.02.  The rotation of the quaternion
    is given by its matrix over the reals, which is that of the unit
    quaternion [q / |q|].  The matrix of the code is off by one unit in the
    last place; its entries of the order of 1e-15, from which roll and yaw
    are read, are off by a tenth of their value. *)
Theorem rpy_round_trip_binary64 :
  let q := binary64.to_quat binary64.q_near_quarter_turn in
  let rebuilt :=
    rotation_from_rpy (binary64.rpy_from_quaternion binary64.q_near_quarter_turn) in
  Rabs (np.dot (array_of_quat q) (array_of_quat q) - 1) < _EPS /\
  _EPS < cy_of_quaternion q /\
  fc.y (fc.multVec rebuilt (fc.mkVector 0 0 1)) + 1 / 50
  < fc.y (matrix_action (quaternion_matrix q) (fc.mkVector 0 0 1)).
Proof.
  cbv zeta. destruct near_quarter_turn_exact as [Hn He]. split; [exact Hn |].
  split; [exact near_quarter_turn_regular |].
  rewrite rotation_from_rpy_action, rpy_near_quarter_turn.
  unfold matrix_action. cbn [fc.x fc.y fc.z].
  rewrite to_R_M21, to_R_M22, to_R_M10, to_R_M00.
  assert (Hu : 0 < / 2 ^ 56) by (apply Rinv_0_lt_compat, pow_lt; lra).
  match goal with
  | |- context [rpy_matrix (_, ?pitch, _)] =>
      pose proof (rebuilt_entry_value (/ 2 ^ 56) pitch Hu) as Hb
  end.
  lra.
Qed.

(** ** Degenerate quaternions and the angles of a matrix *)

(** C4: a quaternion whose squared norm is below [_EPS] (four times the
    machine epsilon), the null quaternion among them, is sent to the 4x4
    identity matrix. *)
Theorem quaternion_matrix_degenerate (q : QuatList) :
  np.dot (array_of_quat q) (array_of_quat q) < _EPS ->
  quaternion_matrix q = np.identity 4.
Proof.
  intros H. unfold quaternion_matrix.
  destruct (Rlt_dec _ _); [reflexivity | contradiction].
Qed.

Lemma quaternion_matrix_degenerate_witness :
  np.dot (array_of_quat (0, 0, 0, 0)) (array_of_quat (0, 0, 0, 0)) < _EPS /\
  quaternion_matrix (0, 0, 0, 0) =
  [ [1; 0; 0; 0]; [0; 1; 0; 0]; [0; 0; 1; 0]; [0; 0; 0; 1] ].
Proof.
  assert (H : np.dot (array_of_quat (0, 0, 0, 0)) (array_of_quat (0, 0, 0, 0)) < _EPS).
  { cbn. pose proof _EPS_pos. lra. }
  split; [exact H |].
  rewrite (quaternion_matrix_degenerate (0, 0, 0, 0) H). reflexivity.
Defined.

(** C5: on a 3x3 or 4x4 matrix, with [cy = sqrt (M[0,0]^2 + M[1,0]^2)]: above
    the threshold the angles are [atan2 (M[2,1], M[2,2])],
    [atan2 (-M[2,0], cy)], [atan2 (M[1,0], M[0,0])]; at or below it they are
    [atan2 (-M[1,2], M[1,1])], [atan2 (-M[2,0], cy)] and [0]. *)
Theorem euler_from_matrix_contract (M : np.ndarray2) :
  np.shape 3 3 M \/ np.shape 4 4 M ->
  let cy := sqrt (M.[0, 0] ^ 2 + M.[1, 0] ^ 2) in
  (_EPS < cy ->
   euler_from_matrix M =
   (math.atan2 M.[2, 1] M.[2, 2], math.atan2 (- M.[2, 0]) cy,
    math.atan2 M.[1, 0] M.[0, 0])) /\
  (cy <= _EPS ->
   euler_from_matrix M =
   (math.atan2 (- M.[1, 2]) M.[1, 1], math.atan2 (- M.[2, 0]) cy, 0)).
Proof.
  intros _ cy. subst cy.
  replace (M.[0, 0] ^ 2 + M.[1, 0] ^ 2)
    with (M.[0, 0] * M.[0, 0] + M.[1, 0] * M.[1, 0]) by ring.
  split; intros H.
  - apply euler_from_matrix_regular, H.
  - apply euler_from_matrix_gimbal, H.
Qed.

Lemma euler_from_matrix_contract_witness :
  (np.shape 3 3 (np.identity 3) /\
   euler_from_matrix (np.identity 3) =
   (math.atan2 0 1, math.atan2 (- 0) (sqrt (1 ^ 2 + 0 ^ 2)), math.atan2 0 1)) /\
  (np.shape 4 4 pitch_quarter_turn /\
   euler_from_matrix pitch_quarter_turn =
   (math.atan2 (- 0) 1, math.atan2 (- -1) (sqrt (0 ^ 2 + 0 ^ 2)), 0)).
Proof.
  assert (S3 : np.shape 3 3 (np.identity 3)).
  { split; [reflexivity | repeat constructor]. }
  assert (S4 : np.shape 4 4 pitch_quarter_turn).
  { split; [reflexivity | repeat constructor]. }
  split; split; try assumption.
  - apply (proj1 (euler_from_matrix_contract (np.identity 3) (or_introl S3))).
    cbn. replace (1 * (1 * 1) + 0 * (0 * 1)) with 1 by ring.
    rewrite sqrt_1. exact _EPS_small.
  - apply (proj2 (euler_from_matrix_contract pitch_quarter_turn (or_intror S4))).
    cbn. replace (0 * (0 * 1) + 0 * (0 * 1)) with 0 by ring.
    rewrite sqrt_0. apply Rlt_le, _EPS_pos.
Defined.

(** ** Emitters of the primitives *)

Section EmitterFacts.

Context `{Host}.

Lemma box_placement_ok (box : DO) (supplied : option fc.Placement) :
  is_box box = true ->
  urdf_box_placement_from_object box supplied =
  Ok (match supplied with Some p => p | None => Placement box end
      * translation (fc.Vector_div
                       (fc.mkVector (Value (Length box)) (Value (Width box))
                                    (Value (Height box))) 2))%fc.
Proof.
  intros Hb. unfold urdf_box_placement_from_object. rewrite Hb. cbn [negb].
  destruct supplied; reflexivity.
Qed.

Lemma cylinder_placement_ok (cyl : DO) (supplied : option fc.Placement) :
  is_cylinder cyl = true ->
  urdf_cylinder_placement_from_object cyl supplied =
  Ok (match supplied with Some p => p | None => Placement cyl end
      * translation (fc.mkVector 0 0 (Value (Height cyl) / 2)))%fc.
Proof.
  intros Hc. unfold urdf_cylinder_placement_from_object. rewrite Hc. cbn [negb].
  destruct supplied; reflexivity.
Qed.

Lemma sphere_placement_ok (sphere : DO) (supplied : option fc.Placement) :
  is_sphere sphere = true ->
  urdf_sphere_placement_from_object sphere supplied =
  Ok (match supplied with Some p => p | None => Placement sphere end).
Proof.
  intros Hs. unfold urdf_sphere_placement_from_object. rewrite Hs. cbn [negb].
  destruct supplied; reflexivity.
Qed.

(** The box emitter puts an origin, then a geometry. *)
Lemma box_emitter_children (box : DO) (generic : string)
    (p : fc.Placement) (ignore_obj_placement : bool) :
  is_box box = true ->
  exists parent,
    _urdf_generic_from_box box generic p ignore_obj_placement = Ok parent /\
    et.tag parent = et.Tag generic /\
    child_tags parent = [et.Tag "origin"; et.Tag "geometry"].
Proof.
  intros Hb. unfold _urdf_generic_from_box.
  rewrite Hb, (box_placement_ok _ _ Hb). cbn [negb bind].
  eexists. split; [reflexivity |]. split; [reflexivity |].
  unfold child_tags, urdf_origin_from_placement.
  destruct (rpy_from_quaternion _) as [[r0 r1] r2]. reflexivity.
Qed.

(** So does the cylinder emitter. *)
Lemma cylinder_emitter_children (cyl : DO) (generic : string)
    (p : fc.Placement) (ignore_obj_placement : bool) :
  is_cylinder cyl = true ->
  exists parent,
    _urdf_generic_from_cylinder cyl generic p ignore_obj_placement = Ok parent /\
    et.tag parent = et.Tag generic /\
    child_tags parent = [et.Tag "origin"; et.Tag "geometry"].
Proof.
  intros Hc. unfold _urdf_generic_from_cylinder.
  rewrite Hc, (cylinder_placement_ok _ _ Hc). cbn [negb bind].
  eexists. split; [reflexivity |]. split; [reflexivity |].
  unfold child_tags, urdf_origin_from_placement.
  destruct (rpy_from_quaternion _) as [[r0 r1] r2]. reflexivity.
Qed.

(** The sphere emitter puts a geometry only. *)
Lemma sphere_emitter_value (sphere : DO) (generic : string)
    (p : fc.Placement) (ignore_obj_placement : bool) :
  is_sphere sphere = true ->
  _urdf_generic_from_sphere sphere generic p ignore_obj_placement
  = Ok (et.append (et.fromstring generic [])
          (urdf_geometry_sphere (getValueAs_m (Radius sphere)))).
Proof.
  intros Hs. unfold _urdf_generic_from_sphere. rewrite Hs. reflexivity.
Qed.

(** C1, what the code does for a sphere: the element of the sphere emitter
    holds a geometry and nothing else; the origin that the box and cylinder
    emitters append is missing, for either role tag and every placement. *)
Theorem sphere_emitter_children (sphere : DO) (generic : string)
    (p : fc.Placement) (ignore_obj_placement : bool) :
  is_sphere sphere = true ->
  generic = "visual" \/ generic = "collision" ->
  exists parent,
    _urdf_generic_from_sphere sphere generic p ignore_obj_placement = Ok parent /\
    et.tag parent = et.Tag generic /\
    child_tags parent = [et.Tag "geometry"].
Proof.
  intros Hs _. rewrite (sphere_emitter_value _ _ _ _ Hs).
  eexists. split; [reflexivity |]. split; reflexivity.
Qed.

(** C9: each centering function and each emitter raises its
    [RuntimeError] exactly when the object is not of the kind it expects. *)
Theorem kind_errors (obj : DO) (supplied : option fc.Placement)
    (generic : string) (p : fc.Placement) (ignore_obj_placement : bool) :
  raises_RuntimeError (urdf_box_placement_from_object obj supplied)
  = negb (is_box obj) /\
  raises_RuntimeError (urdf_cylinder_placement_from_object obj supplied)
  = negb (is_cylinder obj) /\
  raises_RuntimeError (urdf_sphere_placement_from_object obj supplied)
  = negb (is_sphere obj) /\
  raises_RuntimeError (_urdf_generic_from_box obj generic p ignore_obj_placement)
  = negb (is_box obj) /\
  raises_RuntimeError (_urdf_generic_from_cylinder obj generic p ignore_obj_placement)
  = negb (is_cylinder obj) /\
  raises_RuntimeError (_urdf_generic_from_sphere obj generic p ignore_obj_placement)
  = negb (is_sphere obj).
Proof.
  unfold urdf_box_placement_from_object, urdf_cylinder_placement_from_object,
    urdf_sphere_placement_from_object, _urdf_generic_from_box,
    _urdf_generic_from_cylinder, _urdf_generic_from_sphere,
    urdf_box_placement_from_object, urdf_cylinder_placement_from_object.
  destruct (is_box obj), (is_cylinder obj), (is_sphere obj); cbn [negb bind];
    repeat split; reflexivity.
Qed.

End EmitterFacts.

Section EmitterExamples.

#[local] Existing Instance demo.host.

Lemma sphere_emitter_children_witness :
is_sphere demo.sphere = true /\
exists parent,
  urdf_visual_from_sphere demo.sphere fc.Placement0 false = Ok parent /\
  et.tag parent = et.Tag "visual" /\
  child_tags parent = [et.Tag "geometry"].
Proof.
split; [reflexivity |].
apply (sphere_emitter_children demo.sphere "visual" fc.Placement0 false).
- reflexivity.
- left. reflexivity.
Defined.

End EmitterExamples.

(** ** Centre placements *)

Lemma Rotation_mul_Rotation0 (r : fc.Rotation) : fc.Rotation_mul r fc.Rotation0 = r.
Proof.
  destruct r as [[[[qx qy] qz] qw]]. unfold fc.Rotation_mul, fc.Rotation0.
  do 2 f_equal; [ f_equal; [ f_equal |] |]; ring.
Qed.

(** Composing with a translation moves the base along the rotated vector and
    keeps the rotation. *)
Lemma Placement_mul_translation (p : fc.Placement) (v : fc.Vector) :
  Rotation (p * translation v)%fc = Rotation p /\
  Base (p * translation v)%fc = fc.Vector_add (Base p) (fc.multVec (Rotation p) v).
Proof.
  destruct p as [b r]. cbn [fc.Placement_mul translation Rotation Base].
  split; [apply Rotation_mul_Rotation0 | reflexivity].
Qed.

Section Centering.

Context `{Host}.

(** C3: with [P] the supplied placement, or the placement of the object
    when none is supplied, the centre of a box is [P] composed with the
    translation by (Length, Width, Height) / 2, of a cylinder [P] composed
    with the translation by (0, 0, Height / 2), both with the rotation of
    [P]; the centre of a sphere is [P]. *)
Theorem center_placements (box cyl sphere : DO) (supplied : option fc.Placement) :
  is_box box = true -> is_cylinder cyl = true -> is_sphere sphere = true ->
  let P obj := match supplied with Some p => p | None => Placement obj end in
  let half_box :=
    fc.mkVector (Value (Length box) / 2) (Value (Width box) / 2)
                (Value (Height box) / 2) in
  let half_cyl := fc.mkVector 0 0 (Value (Height cyl) / 2) in
  (exists center,
      urdf_box_placement_from_object box supplied = Ok center /\
      center = (P box * translation half_box)%fc /\
      Rotation center = Rotation (P box) /\
      Base center
      = fc.Vector_add (Base (P box)) (fc.multVec (Rotation (P box)) half_box)) /\
  (exists center,
      urdf_cylinder_placement_from_object cyl supplied = Ok center /\
      center = (P cyl * translation half_cyl)%fc /\
      Rotation center = Rotation (P cyl) /\
      Base center
      = fc.Vector_add (Base (P cyl)) (fc.multVec (Rotation (P cyl)) half_cyl)) /\
  urdf_sphere_placement_from_object sphere supplied = Ok (P sphere).
Proof.
  intros Hb Hc Hs P half_box half_cyl.
  split; [| split].
  - eexists. split; [apply (box_placement_ok _ _ Hb) |].
    split; [reflexivity |]. apply Placement_mul_translation.
  - eexists. split; [apply (cylinder_placement_ok _ _ Hc) |].
    split; [reflexivity |]. apply Placement_mul_translation.
  - apply (sphere_placement_ok _ _ Hs).
Qed.

End Centering.

Section CenteringExamples.

#[local] Existing Instance demo.host.

Lemma center_placements_witness :
(is_box demo.box = true /\ is_cylinder demo.cylinder = true
 /\ is_sphere demo.sphere = true) /\
(exists center,
    urdf_box_placement_from_object demo.box None = Ok center /\
    Base center = fc.mkVector 1 2 3 /\ Rotation center = fc.Rotation0) /\
(exists center,
    urdf_cylinder_placement_from_object demo.cylinder None = Ok center /\
    Base center = fc.mkVector 0 0 5 /\ Rotation center = fc.Rotation0) /\
urdf_sphere_placement_from_object demo.sphere None = Ok fc.Placement0.
Proof.
split; [repeat split |].
destruct (@center_placements demo.host demo.box demo.cylinder demo.sphere None
            eq_refl eq_refl eq_refl)
  as [[cb [Eb [_ [Rb Bb]]]] [[cc [Ec [_ [Rc Bc]]]] Es]].
split; [| split].
- exists cb. split; [exact Eb |]. split; [| exact Rb].
  rewrite Bb. cbn. unfold fc.Vector_add. cbn [fc.x fc.y fc.z]. f_equal; field.
- exists cc. split; [exact Ec |]. split; [| exact Rc].
  rewrite Bc. cbn. unfold fc.Vector_add. cbn [fc.x fc.y fc.z]. f_equal; field.
- exact Es.
Defined.

(** Lengths leave in metres: a cube of one metre has size 1 1 1. *)
Example metre_cube_size :
  let metre := getValueAs_m (mkQuantity 1000) in
  exists size,
    et.children (urdf_geometry_box metre metre metre)
    = [et.fromstring "box" [("size", size)]] /\
    floats size = [1; 1; 1]%R.
Proof.
  eexists. split; [reflexivity |].
  cbn [floats]. unfold getValueAs_m. cbn [Value]. array_eq; lra.
Qed.

End CenteringExamples.

(** ** The origin element *)

Lemma PI2_bounds : 157079 / 100000 < PI / 2 < 157080 / 100000.
Proof.
  pose proof (PI_2_3_7_ineq 2) as [Hlo Hhi].
  unfold sum_f_R0, tg_alt, PI_2_3_7_tg, Ratan_seq in Hlo, Hhi.
  simpl in Hlo, Hhi.
  split; lra.
Qed.

Lemma between_integers (z a : Z) (x : R) :
  x = IZR z -> IZR a < x < IZR (a + 1) -> False.
Proof.
  intros -> [H1 H2]. apply lt_IZR in H1, H2. lia.
Qed.

(** The float nearest to pi / 2 prints as 1.5707963267948966; pi / 2 itself
    is no decimal of six significant digits. *)
Lemma PI2_not_six_digits : ~ significant_digits 6 (PI / 2).
Proof.
  pose proof PI2_bounds as [Hlo Hhi].
  intros [m [k [Hm [E | E]]]].
  - apply (between_integers (m * 10 ^ Z.of_nat k) 1 (PI / 2)).
    + rewrite E, mult_IZR, <- pow_IZR. reflexivity.
    + cbn [Z.add Pos.add]. lra.
  - destruct (Nat.le_gt_cases k 5) as [Hk | Hk].
    + apply (between_integers (m * 10 ^ Z.of_nat (5 - k)) 157079 (PI / 2 * 10 ^ 5)).
      * rewrite E, mult_IZR, <- pow_IZR.
        replace 5%nat with (k + (5 - k))%nat at 1 by lia.
        rewrite pow_add. field. apply pow_nonzero. lra.
      * change (157079 + 1)%Z with 157080%Z. simpl pow. lra.
    + assert (H6 : 10 ^ 6 <= 10 ^ k) by (apply Rle_pow; [lra | lia]).
      assert (Hm' : IZR m < 10 ^ 6).
      { rewrite pow_IZR. apply IZR_lt.
        cbn [Z.of_nat Pos.of_succ_nat Pos.succ] in *. lia. }
      assert (Hp : 0 < 10 ^ k) by (apply pow_lt; lra).
      assert (IZR m / 10 ^ k < 1).
      { apply (Rmult_lt_reg_r (10 ^ k)); [assumption |].
        replace (IZR m / 10 ^ k * 10 ^ k) with (IZR m) by (field; lra). lra. }
      lra.
Qed.

Lemma atan2_0_1 : math.atan2 0 1 = 0.
Proof.
  unfold math.atan2. destruct (Rlt_dec 0 1); [| lra].
  replace (0 / 1) with 0 by field. apply atan_0.
Qed.

Lemma atan2_1_0 : math.atan2 1 0 = PI / 2.
Proof.
  unfold math.atan2.
  destruct (Rlt_dec 0 0); [lra |].
  destruct (Rlt_dec 0 1); [reflexivity | lra].
Qed.

(** A quarter turn about z is a yaw of pi / 2. *)
Lemma rpy_of_quarter_turn_z :
  rpy_from_quaternion (Q (Rotation quarter_turn_z)) = (0, 0, PI / 2).
Proof.
  cbn [quarter_turn_z Rotation Q].
  pose proof half_sqrt2_sqr as E.
  assert (U : unit_quaternion (0, 0, sqrt 2 / 2, sqrt 2 / 2))
    by (unfold unit_quaternion; cbn; lra).
  unfold rpy_from_quaternion.
  rewrite (quaternion_matrix_unit _ _ _ _ U).
  rewrite euler_from_matrix_regular; unfold np.get; cbn [nth].
  - replace (1 - 2 * (0 * 0 + sqrt 2 / 2 * (sqrt 2 / 2))) with 0 by lra.
    replace (2 * (0 * 0 + sqrt 2 / 2 * (sqrt 2 / 2))) with 1 by lra.
    replace (2 * (0 * (sqrt 2 / 2) + 0 * (sqrt 2 / 2))) with 0 by lra.
    replace (- (2 * (0 * (sqrt 2 / 2) - 0 * (sqrt 2 / 2)))) with 0 by lra.
    replace (1 - 2 * (0 * 0 + 0 * 0)) with 1 by lra.
    replace (0 * 0 + 1 * 1) with 1 by lra.
    rewrite sqrt_1, atan2_0_1, atan2_1_0. reflexivity.
  - replace (1 - 2 * (0 * 0 + sqrt 2 / 2 * (sqrt 2 / 2))) with 0 by lra.
    replace (2 * (0 * 0 + sqrt 2 / 2 * (sqrt 2 / 2))) with 1 by lra.
    replace (0 * 0 + 1 * 1) with 1 by lra.
    rewrite sqrt_1. exact _EPS_small.
Qed.

(** C6, as stated, fails: for a placement turned by a quarter turn about z,
    the [rpy] attribute holds the yaw pi / 2 written by [str], with no
    precision; it is not rounded to six significant digits. *)
Lemma origin_rpy_counterexample :
  exists rpy,
    et.get (et.attrib (urdf_origin_from_placement quarter_turn_z)) "rpy" = Some rpy /\
    rpy = [et.Float et.spec_none 0; et.Lit " "; et.Float et.spec_none 0;
           et.Lit " "; et.Float et.spec_none (PI / 2)] /\
    all_precision 6 rpy = false /\
    ~ significant_digits 6 (PI / 2).
Proof.
  unfold urdf_origin_from_placement. rewrite rpy_of_quarter_turn_z.
  eexists. split; [reflexivity |]. split; [reflexivity |].
  split; [reflexivity | exact PI2_not_six_digits].
Qed.

(** C6, as amended: the origin element carries in [xyz] the translation in
    metres, each value formatted with six significant digits, and in [rpy]
    the roll, pitch and yaw of the rotation, each written in full by [str],
    without rounding. *)
Theorem origin_attributes (p : fc.Placement) :
  let e := urdf_origin_from_placement p in
  et.tag e = et.Tag "origin" /\ et.children e = [] /\
  (exists xyz,
      et.get (et.attrib e) "xyz" = Some xyz /\
      floats xyz
      = [fc.x (Base p) / 1000; fc.y (Base p) / 1000; fc.z (Base p) / 1000]%R /\
      all_precision 6 xyz = true) /\
  (exists rpy,
      et.get (et.attrib e) "rpy" = Some rpy /\
      (let '(roll, pitch, yaw) := rpy_from_quaternion (Q (Rotation p)) in
       rpy = [et.Float et.spec_none roll; et.Lit " "; et.Float et.spec_none pitch;
              et.Lit " "; et.Float et.spec_none yaw])).
Proof.
  unfold urdf_origin_from_placement.
  destruct (rpy_from_quaternion _) as [[r0 r1] r2]. cbv zeta.
  split; [reflexivity |]. split; [reflexivity |]. split.
  - eexists. split; [reflexivity |]. split; [| reflexivity].
    cbn [floats fc.Vector_mul fc.x fc.y fc.z]. array_eq; lra.
  - eexists. split; reflexivity.
Qed.

(** ** The generic dispatcher *)

Section Dispatcher.

Context `{Host}.

Lemma effective_package_name_fallback (package_name : option string) :
  package_name_bool package_name = false ->
  effective_package_name package_name = "package".
Proof. intros E. unfold effective_package_name. rewrite E. reflexivity. Qed.

Lemma mesh_emitter_ok (obj : DO) (mesh_name package_name generic : string)
    (p : fc.Placement) :
  exists parent,
    _urdf_generic_mesh obj mesh_name package_name generic p = Ok parent /\
    mesh_reference parent
    = Some [et.Lit ("package://" ++ package_name ++ "/meshes/" ++ mesh_name)].
Proof.
  unfold _urdf_generic_mesh. cbn [fc.Placement_bool negb andb].
  eexists. split; reflexivity.
Qed.

(** No test of the loop fails: where the parser accepts the names it is
    given, the loop appends one record for every leaf that is left, in
    order, and warns once, at the first mesh leaf it meets without a package
    name. *)
Lemma dispatcher_loop (obj : DO) (generic : string)
    (supplied : option fc.Placement) (leafs : list (DO * string)) :
  forall (package_name : option string) (out_data : list XmlForExport)
         (log : list string),
  exists records,
    _urdf_generic_from_object_loop obj generic supplied leafs package_name
      out_data log
    = (Ok (out_data ++ records)%list,
       (log ++ if negb (package_name_bool package_name)
                  && existsb is_mesh_leaf leafs
               then [warning_no_package_name] else [])%list) /\
    Forall2 (leaf_record obj generic supplied
               (effective_package_name package_name)) leafs records.
Proof.
  induction leafs as [| [subobj subname] leafs IH]; intros package_name out_data log.
  - exists []. cbn. rewrite andb_false_r, !app_nil_r. split; constructor.
  - cbn [_urdf_generic_from_object_loop existsb].
    unfold is_mesh_leaf at 1, leaf_object at 1 2 3. cbn [fst].
    destruct (getLinkedObject subobj) as [linked_object linked_matrix] eqn:E.
    cbn [fst].
    set (this_placement :=
           match supplied with
           | Some p => (p * Placement_of_Matrix linked_matrix)%fc
           | None => Placement_of_Matrix linked_matrix
           end).
    assert (Hobj : leaf_object (subobj, subname) = linked_object)
      by (unfold leaf_object; cbn [fst]; rewrite E; reflexivity).
    assert (Hpl : leaf_placement supplied (subobj, subname) = this_placement)
      by (unfold leaf_placement; cbn [fst]; rewrite E; reflexivity).
    destruct (is_box linked_object) eqn:Hb;
      [| destruct (is_sphere linked_object) eqn:Hs;
         [| destruct (is_cylinder linked_object) eqn:Hc ] ];
      cbn [negb andb orb].
    + destruct (box_emitter_children linked_object generic this_placement true Hb)
        as [parent [Ep _]].
      rewrite Ep.
      destruct (IH package_name
                  (out_data ++ [mkXmlForExport parent linked_object this_placement ""])%list
                  log) as [records [Er Fr]].
      exists (mkXmlForExport parent linked_object this_placement "" :: records).
      rewrite Er, <- app_assoc. split; [reflexivity |].
      constructor; [| exact Fr].
      unfold leaf_record. rewrite Hobj, Hpl, Hb. cbn. auto.
    + rewrite (sphere_emitter_value linked_object generic this_placement true Hs).
      set (parent := et.append _ _).
      destruct (IH package_name
                  (out_data ++ [mkXmlForExport parent linked_object this_placement ""])%list
                  log) as [records [Er Fr]].
      exists (mkXmlForExport parent linked_object this_placement "" :: records).
      rewrite Er, <- app_assoc. split; [reflexivity |].
      constructor; [| exact Fr].
      unfold leaf_record. rewrite Hobj, Hpl, Hb, Hs. cbn.
      rewrite (sphere_emitter_value linked_object generic this_placement true Hs). auto.
    + destruct (cylinder_emitter_children linked_object generic this_placement true Hc)
        as [parent [Ep _]].
      rewrite Ep.
      destruct (IH package_name
                  (out_data ++ [mkXmlForExport parent linked_object this_placement ""])%list
                  log) as [records [Er Fr]].
      exists (mkXmlForExport parent linked_object this_placement "" :: records).
      rewrite Er, <- app_assoc. split; [reflexivity |].
      constructor; [| exact Fr].
      unfold leaf_record. rewrite Hobj, Hpl, Hb, Hs, Hc. cbn. auto.
    + set (filename := get_valid_filename (Label (fst (getLinkedObject obj))) ++ ".dae").
      destruct (package_name_bool package_name) eqn:Hp; cbn [negb andb].
      * destruct (mesh_emitter_ok linked_object filename
                    (package_name_str package_name) generic this_placement)
          as [parent [Ep _]].
        rewrite Ep.
        destruct (IH package_name
                    (out_data ++ [mkXmlForExport parent linked_object this_placement filename])%list
                    log) as [records [Er Fr]].
        rewrite Hp in Er. cbn [negb andb] in Er.
        exists (mkXmlForExport parent linked_object this_placement filename :: records).
        rewrite Er, <- app_assoc. split; [reflexivity |].
        constructor; [| exact Fr].
        unfold leaf_record. rewrite Hobj, Hpl, Hb, Hs, Hc. cbn.
        unfold effective_package_name. rewrite Hp. auto.
      * destruct (mesh_emitter_ok linked_object filename
                    (package_name_str (Some "package")) generic this_placement)
          as [parent [Ep _]].
        rewrite Ep.
        destruct (IH (Some "package")
                    (out_data ++ [mkXmlForExport parent linked_object this_placement filename])%list
                    (log ++ [warning_no_package_name])%list) as [records [Er Fr]].
        cbn [package_name_bool String.eqb negb andb] in Er.
        exists (mkXmlForExport parent linked_object this_placement filename :: records).
        rewrite Er, <- !app_assoc, app_nil_r. split; [reflexivity |].
        rewrite (effective_package_name_fallback _ Hp).
        constructor; [| exact Fr].
        unfold leaf_record. rewrite Hobj, Hpl, Hb, Hs, Hc. cbn. auto.
Qed.

End Dispatcher.

Section DispatcherClaims.

Context `{Host}.

(** The file name recorded for a mesh leaf is made from the label of the
    object the dispatcher was called on, whatever the leaf. *)
Lemma mesh_filename_from_argument (obj : DO) (generic : string)
    (package_name : option string) (supplied : option fc.Placement) :
  exists records,
    fst (_urdf_generic_from_object obj generic package_name supplied) = Ok records /\
    Forall2 (fun leaf r =>
               is_mesh_leaf leaf = true ->
               mesh_filename r
               = get_valid_filename (Label (fst (getLinkedObject obj))) ++ ".dae")
            (get_leafs_and_subnames obj) records.
Proof.
  unfold _urdf_generic_from_object.
  destruct (dispatcher_loop obj generic supplied (get_leafs_and_subnames obj)
              package_name [] []) as [records [E F]].
  exists records. rewrite E. split; [reflexivity |].
  revert F. apply Forall2_impl.
  intros leaf r [_ [_ L]] M. unfold is_mesh_leaf in M.
  destruct (is_box (leaf_object leaf)); [discriminate |].
  destruct (is_sphere (leaf_object leaf)); [discriminate |].
  destruct (is_cylinder (leaf_object leaf)); [discriminate |].
  apply L.
Qed.

(** C8: when no package name is supplied and a leaf is a mesh, the call
    raises nothing, emits exactly one warning, returns one export record for
    every leaf, in order, and every mesh reference names the package
    [package]. *)
Theorem mesh_without_package_name (obj : DO) (generic : string)
    (package_name : option string) (supplied : option fc.Placement) :
  package_name_bool package_name = false ->
  existsb is_mesh_leaf (get_leafs_and_subnames obj) = true ->
  exists records,
    _urdf_generic_from_object obj generic package_name supplied
    = (Ok records, [warning_no_package_name]) /\
    Forall2 (fun leaf r =>
               leaf_record obj generic supplied "package" leaf r /\
               (is_mesh_leaf leaf = true ->
                mesh_reference (xml r)
                = Some [et.Lit ("package://package/meshes/" ++ mesh_filename r)]))
            (get_leafs_and_subnames obj) records.
Proof.
  intros Hp Hm. unfold _urdf_generic_from_object.
  destruct (dispatcher_loop obj generic supplied (get_leafs_and_subnames obj)
              package_name [] []) as [records [E F]].
  rewrite Hp, Hm in E. cbn [negb andb app] in E.
  rewrite (effective_package_name_fallback _ Hp) in F.
  exists records. split; [exact E |].
  revert F. apply Forall2_impl.
  intros leaf r L. split; [exact L |].
  intros M. destruct L as [_ [_ L]]. unfold is_mesh_leaf in M.
  destruct (is_box (leaf_object leaf)); [discriminate |].
  destruct (is_sphere (leaf_object leaf)); [discriminate |].
  destruct (is_cylinder (leaf_object leaf)); [discriminate |].
  destruct L as [_ L].
  destruct (mesh_emitter_ok (object r) (mesh_filename r) "package" generic
              (placement r)) as [parent [Ep Rp]].
  rewrite Ep in L. injection L as <-. exact Rp.
Qed.

(** ** The group validator *)

Lemma export_group_with_lcs_loop_log (fc_links : list DO) :
  forall log : list string,
    export_group_with_lcs_loop fc_links log
    = (log ++ map child_warning
                  (filter (fun fc_link => negb (conforming fc_link)) fc_links))%list.
Proof.
  induction fc_links as [| fc_link fc_links IH]; intros log.
  - cbn. now rewrite app_nil_r.
  - cbn [export_group_with_lcs_loop filter].
    destruct (is_fclink fc_link) eqn:Hl; cbn [negb].
    + destruct (on_object is_lcs (LinkedObject fc_link)
                || on_object is_part (LinkedObject fc_link)) eqn:Ho; cbn [negb].
      * replace (conforming fc_link) with true
          by (unfold conforming; rewrite Hl, Ho; reflexivity).
        apply IH.
      * replace (conforming fc_link) with false
          by (unfold conforming; rewrite Hl, Ho; reflexivity).
        cbn [negb map].
        replace (child_warning fc_link) with (warning_not_lcs_or_part fc_link)
          by (unfold child_warning; rewrite Hl; reflexivity).
        rewrite IH, <- app_assoc. reflexivity.
    + replace (conforming fc_link) with false
        by (unfold conforming; rewrite Hl; reflexivity).
      cbn [negb map].
      replace (child_warning fc_link) with (warning_not_a_link fc_link)
        by (unfold child_warning; rewrite Hl; reflexivity).
      rewrite IH, <- app_assoc. reflexivity.
Qed.

(** C10: [export_group_with_lcs] raises its [ValueError] exactly when the
    input is no group; on a group it returns [True], whatever the children,
    with one warning for every child that is no link, or links to neither a
    coordinate system nor a part; it never returns [False]. *)
Theorem export_group_with_lcs_result (group : DO) (package_path : string) :
  export_group_with_lcs group package_path
  = (if is_group group then
       (Ok true,
        map child_warning
            (filter (fun fc_link => negb (conforming fc_link)) (Group group)))
     else
       (Raise (ValueError ("First argument must be a group, i.e. " ++ dq
                           ++ "App::DocumentObjectGroup" ++ dq)), []))
  /\ fst (export_group_with_lcs group package_path) <> Ok false.
Proof.
  unfold export_group_with_lcs.
  destruct (is_group group); cbn [negb fst].
  - rewrite export_group_with_lcs_loop_log. cbn [app].
    split; [reflexivity | discriminate].
  - split; [reflexivity | discriminate].
Qed.

End DispatcherClaims.

Section DispatcherExamples.

#[local] Existing Instance demo.host.

Lemma mesh_without_package_name_witness :
(package_name_bool None = false /\
 existsb is_mesh_leaf (get_leafs_and_subnames demo.assembly) = true) /\
exists records,
  urdf_visual_from_object demo.assembly None None
  = (Ok records, [warning_no_package_name]) /\
  Forall2 (fun leaf r =>
             leaf_record demo.assembly "visual" None "package" leaf r /\
             (is_mesh_leaf leaf = true ->
              mesh_reference (xml r)
              = Some [et.Lit ("package://package/meshes/" ++ mesh_filename r)]))
          (get_leafs_and_subnames demo.assembly) records.
Proof.
split; [split; reflexivity |].
apply (@mesh_without_package_name demo.host demo.assembly "visual" None None);
  reflexivity.
Defined.

(** C7, what the code does: the two mesh leaves of the group [Assembly],
  labelled [Arm] and [Hand], are both recorded under the file name made
  from the label of the group. *)
Theorem mesh_filename_of_group_leaves :
exists r1 r2,
  fst (urdf_visual_from_object demo.assembly (Some "robot") None) = Ok [r1; r2] /\
  Label (object r1) = "Arm" /\ mesh_filename r1 = "Assembly.dae" /\
  Label (object r2) = "Hand" /\ mesh_filename r2 = "Assembly.dae".
Proof.
do 2 eexists. split; [reflexivity |]. repeat split.
Qed.

(** The records follow the leaves, in the order of the traversal. *)
Example records_follow_the_leaves :
  exists r1 r2 r3,
    urdf_visual_from_object demo.workcell (Some "robot") None
    = (Ok [r1; r2; r3], []) /\
    map Label [object r1; object r2; object r3] = ["Box"; "Cylinder"; "Arm"] /\
    map mesh_filename [r1; r2; r3] = [""; ""; "Work_cell.dae"] /\
    mesh_reference (xml r3)
    = Some [et.Lit "package://robot/meshes/Work_cell.dae"].
Proof.
  do 3 eexists. split; [reflexivity |]. repeat split.
Qed.

Example export_group_with_lcs_joints :
export_group_with_lcs demo.joints "."
= (Ok true,
   ["Linked object of " ++ dq ++ "Link to box" ++ dq
    ++ " is not a coordinate system or part, ignoring";
    dq ++ "Box" ++ dq ++ " is not a link, ignoring"]).
Proof. reflexivity. Qed.

Example export_group_with_lcs_no_group :
fst (export_group_with_lcs demo.box ".")
= Raise (ValueError ("First argument must be a group, i.e. " ++ dq
                     ++ "App::DocumentObjectGroup" ++ dq)).
Proof. reflexivity. Qed.

End DispatcherExamples.

(** * Further properties *)

(** ** The matrix of any quaternion *)

Lemma norm2_nonneg (q : QuatList) : 0 <= norm2 q.
Proof. destruct q as [[[x y] z] w]. unfold norm2. cbn. nra. Qed.

Lemma homogeneous_rotation_identity : homogeneous_rotation (np.identity 4).
Proof.
  split; [split; [reflexivity | repeat constructor] |].
  split.
  { split; [| unfold det3; cbn; ring].
    intros i j Hi Hj.
    destruct i as [| [| [| i]]]; try lia;
      destruct j as [| [| [| j]]]; try lia; unfold row_dot; cbn; ring. }
  split; [| reflexivity].
  intros i Hi. destruct i as [| [| [| i]]]; try lia; split; reflexivity.
Qed.

(** X1: whatever the quaternion, [quaternion_matrix] returns a homogeneous
    rotation matrix: 4x4, with an orthonormal upper-left block of determinant
    one, a null translation and the last row (0, 0, 0, 1). *)
Theorem quaternion_matrix_is_rotation (q : QuatList) :
  homogeneous_rotation (quaternion_matrix q).
Proof.
  destruct (Rlt_dec (norm2 q) _EPS) as [Hd | Hn].
  - unfold quaternion_matrix. fold (norm2 q).
    destruct (Rlt_dec (norm2 q) _EPS); [| contradiction].
    apply homogeneous_rotation_identity.
  - destruct q as [[[x y] z] w].
    rewrite (quaternion_matrix_normalised x y z w Hn).
    pose proof _EPS_pos as He.
    assert (Hpos : norm2 (x, y, z, w) <> 0) by lra.
    unfold norm2 in *. cbn [array_of_quat np.dot] in *.
    split; [split; [reflexivity | repeat constructor] |].
    split.
    { split; [| unfold det3, np.get; cbn [nth]; field; lra].
      intros i j Hi Hj.
      destruct i as [| [| [| i]]]; try lia;
        destruct j as [| [| [| j]]]; try lia;
        unfold row_dot, np.get; cbn [nth Nat.eqb]; field; lra. }
    split; [| reflexivity].
    intros i Hi. destruct i as [| [| [| i]]]; try lia; split; reflexivity.
Qed.

Lemma norm2_quat_scale (k : R) (q : QuatList) :
  norm2 (quat_scale k q) = k * k * norm2 q.
Proof. destruct q as [[[x y] z] w]. unfold norm2. cbn. ring. Qed.

Lemma pow2_1000_large : 4 <= 2 ^ 1000.
Proof.
  replace 4 with (2 ^ 2) by (simpl; ring).
  apply Rle_pow; [lra | lia].
Qed.

(** X2: a quaternion and a multiple of it, both with a squared norm in the
    range where binary64 neither overflows nor comes near the threshold,
    have the same matrix: the conversion normalises its argument, and [q]
    and [-q] are not told apart. *)
Theorem quaternion_scale_invariant (k : R) (q : QuatList) :
  norm2_in_range (norm2 q) -> norm2_in_range (norm2 (quat_scale k q)) ->
  quaternion_matrix (quat_scale k q) = quaternion_matrix q.
Proof.
  intros [Hq _] [Hkq _].
  pose proof _EPS_pos as He.
  assert (Hq' : ~ norm2 q < _EPS) by lra.
  assert (Hkq' : ~ norm2 (quat_scale k q) < _EPS) by lra.
  pose proof (norm2_quat_scale k q) as Hs.
  destruct q as [[[x y] z] w]. cbn [quat_scale] in *.
  rewrite (quaternion_matrix_normalised _ _ _ _ Hkq').
  rewrite (quaternion_matrix_normalised _ _ _ _ Hq').
  rewrite Hs. rewrite Hs in Hkq.
  assert (Hn : norm2 (x, y, z, w) <> 0) by lra.
  assert (Hk : k <> 0).
  { intros ->. rewrite !Rmult_0_l in Hkq. lra. }
  array_eq; try reflexivity; field; split; assumption.
Qed.

Lemma quaternion_scale_invariant_witness :
  (norm2_in_range (norm2 (0, 0, 0, 1))
   /\ norm2_in_range (norm2 (quat_scale (-2) (0, 0, 0, 1)))) /\
  quaternion_matrix (0, 0, 0, -2 * 1) = quaternion_matrix (0, 0, 0, 1).
Proof.
  pose proof _EPS_sixteenth as He. pose proof _EPS_pos as Hp.
  pose proof pow2_1000_large as Hl.
  assert (H1 : norm2_in_range (norm2 (0, 0, 0, 1)))
    by (unfold norm2_in_range, norm2; cbn; lra).
  assert (H2 : norm2_in_range (norm2 (quat_scale (-2) (0, 0, 0, 1))))
    by (unfold norm2_in_range, norm2; cbn; lra).
  split; [split; assumption |].
  pose proof (quaternion_scale_invariant (-2) (0, 0, 0, 1) H1 H2) as A.
  cbn [quat_scale] in A.
  replace (-2 * 0) with 0 in A by ring.
  exact A.
Defined.

(** ** Rotations made from roll, pitch and yaw *)

Lemma rotation_from_rpy_norm (rpy : Rpy) :
  unit_quaternion (Q (rotation_from_rpy rpy)).
Proof.
  destruct rpy as [[ax ay] az].
  unfold rotation_from_rpy, fc.Rotation_axis_angle, unit_quaternion.
  cbn [fc.x fc.y fc.z fc.Rotation_mul Q array_of_quat np.dot].
  rewrite !half_angle.
  pose proof (sin2_cos2_half ax) as Hx.
  pose proof (sin2_cos2_half ay) as Hy.
  pose proof (sin2_cos2_half az) as Hz.
  generalize dependent (sin (ax / 2)). generalize dependent (cos (ax / 2)).
  generalize dependent (sin (ay / 2)). generalize dependent (cos (ay / 2)).
  generalize dependent (sin (az / 2)). generalize dependent (cos (az / 2)).
  intros cz sz Hz cy sy Hy cx sx Hx.
  nsatz.
Qed.

(** X3: the quaternion of [rotation_from_rpy] has norm one for every roll,
    pitch and yaw, so that it is above the threshold of [quaternion_matrix]
    and is its own normalisation. *)
Theorem rotation_from_rpy_unit (rpy : Rpy) :
  unit_quaternion (Q (rotation_from_rpy rpy)) /\
  ~ norm2 (Q (rotation_from_rpy rpy)) < _EPS.
Proof.
  pose proof (rotation_from_rpy_norm rpy) as U.
  split; [exact U |].
  unfold norm2. unfold unit_quaternion in U. rewrite U.
  pose proof _EPS_small. lra.
Qed.

(** X4: the rotation of [rotation_from_rpy] turns a vector by the roll about
    x first, then by the pitch about y, then by the yaw about z, all about
    the fixed axes. *)
Theorem rotation_from_rpy_order (roll pitch yaw : R) (v : fc.Vector) :
  fc.multVec (rotation_from_rpy (roll, pitch, yaw)) v
  = rot_z yaw (rot_y pitch (rot_x roll v)).
Proof.
  rewrite rotation_from_rpy_action.
  destruct v as [vx vy vz].
  unfold matrix_action, rpy_matrix, rot_x, rot_y, rot_z, np.get.
  cbn [nth fc.x fc.y fc.z].
  f_equal; ring.
Qed.

(** ** The range of [atan2] and of the angles *)

Lemma atan_nonpos (t : R) : t <= 0 -> atan t <= 0.
Proof.
  intros [Ht | Ht].
  - apply Rlt_le. rewrite <- atan_0. apply atan_increasing, Ht.
  - subst t. rewrite atan_0. lra.
Qed.

Lemma atan_positive (t : R) : 0 < t -> 0 < atan t.
Proof. intros Ht. rewrite <- atan_0. apply atan_increasing, Ht. Qed.

Lemma atan2_range (y x : R) : - PI < math.atan2 y x <= PI.
Proof.
  unfold math.atan2. pose proof PI_RGT_0 as Hpi.
  pose proof (atan_bound (y / x)) as Hb.
  destruct (Rlt_dec 0 x) as [Hx | Hx]; [lra |].
  destruct (Rlt_dec x 0) as [Hx' | Hx'].
  - assert (Hi : / x < 0) by (apply Rinv_lt_0_compat, Hx').
    destruct (Rle_dec 0 y) as [Hy | Hy].
    + assert (atan (y / x) <= 0) by (apply atan_nonpos; unfold Rdiv; nra). lra.
    + assert (0 < atan (y / x)) by (apply atan_positive; unfold Rdiv; nra). lra.
  - destruct (Rlt_dec 0 y); [lra |]. destruct (Rlt_dec y 0); lra.
Qed.

Lemma atan2_right_half (y x : R) :
  0 <= x -> - (PI / 2) <= math.atan2 y x <= PI / 2.
Proof.
  intros H. unfold math.atan2. pose proof PI_RGT_0 as Hpi.
  pose proof (atan_bound (y / x)) as Hb.
  destruct (Rlt_dec 0 x) as [Hx | Hx]; [lra |].
  destruct (Rlt_dec x 0) as [Hx' | Hx']; [lra |].
  destruct (Rlt_dec 0 y); [lra |]. destruct (Rlt_dec y 0); lra.
Qed.

Lemma atan2_closed_range (y x : R) : - PI <= math.atan2 y x <= PI.
Proof. pose proof (atan2_range y x). lra. Qed.

(** X5: whatever the matrix, the roll and the yaw of [euler_from_matrix] lie
    in the closed interval [-pi, pi], both ends included, and the pitch in
    [-pi/2, pi/2]: the second argument of the [atan2] of the pitch is a
    square root, which is not negative. *)
Theorem euler_from_matrix_range (M : np.ndarray2) :
  let '(roll, pitch, yaw) := euler_from_matrix M in
  - PI <= roll <= PI /\ - (PI / 2) <= pitch <= PI / 2 /\ - PI <= yaw <= PI.
Proof.
  unfold euler_from_matrix. pose proof PI_RGT_0 as Hpi.
  destruct (Rlt_dec _ _).
  - split; [apply atan2_closed_range |].
    split; [apply atan2_right_half, sqrt_pos | apply atan2_closed_range].
  - split; [apply atan2_closed_range |].
    split; [apply atan2_right_half, sqrt_pos | lra].
Qed.

(** ** From roll, pitch and yaw to a quaternion and back *)

Lemma tan_shift (a b : R) :
  sin a = - sin b -> cos a = - cos b -> 0 < cos b -> forall r, 0 < r ->
  r * sin a / (r * cos a) = tan b.
Proof.
  intros Hs Hc Hb r Hr. rewrite Hs, Hc. unfold tan. field. lra.
Qed.

(** [atan2] recovers the angle of a point given in polar form. *)
Lemma atan2_polar (r a : R) :
  0 < r -> - PI < a <= PI -> math.atan2 (r * sin a) (r * cos a) = a.
Proof.
  intros Hr [Hlo Hhi]. pose proof PI_RGT_0 as Hpi.
  destruct (Rtotal_order a (PI / 2)) as [H1 | [H1 | H1]].
  - destruct (Rtotal_order a (- (PI / 2))) as [H2 | [H2 | H2]].
    + (* -pi < a < -pi/2 *)
      assert (Hb : - (PI / 2) < a + PI < PI / 2) by lra.
      assert (Hcb : 0 < cos (a + PI)) by (apply cos_gt_0; lra).
      assert (Hsb : 0 < sin (a + PI)) by (apply sin_gt_0; lra).
      rewrite neg_cos in Hcb. rewrite neg_sin in Hsb.
      unfold math.atan2.
      destruct (Rlt_dec 0 (r * cos a)); [nra |].
      destruct (Rlt_dec (r * cos a) 0); [| nra].
      destruct (Rle_dec 0 (r * sin a)); [nra |].
      rewrite (tan_shift a (a + PI)); try assumption.
      * rewrite atan_tan by assumption. ring.
      * rewrite neg_sin. ring.
      * rewrite neg_cos. ring.
      * rewrite neg_cos. lra.
    + (* a = -pi/2 *)
      subst a. rewrite cos_neg, sin_neg, cos_PI2, sin_PI2.
      unfold math.atan2.
      repeat match goal with
             | |- context [Rlt_dec ?u ?v] => destruct (Rlt_dec u v)
             end; try reflexivity; lra.
    + (* -pi/2 < a < pi/2 *)
      assert (Hc : 0 < cos a) by (apply cos_gt_0; lra).
      unfold math.atan2.
      destruct (Rlt_dec 0 (r * cos a)); [| nra].
      replace (r * sin a / (r * cos a)) with (tan a)
        by (unfold tan; field; lra).
      apply atan_tan. lra.
  - (* a = pi/2 *)
    subst a. rewrite cos_PI2, sin_PI2.
    unfold math.atan2.
    repeat match goal with
           | |- context [Rlt_dec ?u ?v] => destruct (Rlt_dec u v)
           end; try reflexivity; lra.
  - (* pi/2 < a <= pi *)
    assert (Hc : cos a < 0) by (apply cos_lt_0; lra).
    assert (Hs : 0 <= sin a) by (apply sin_ge_0; lra).
    assert (Hb : - (PI / 2) < a - PI < PI / 2) by lra.
    assert (Ea : a = (a - PI) + PI) by ring.
    unfold math.atan2.
    destruct (Rlt_dec 0 (r * cos a)); [nra |].
    destruct (Rlt_dec (r * cos a) 0); [| nra].
    destruct (Rle_dec 0 (r * sin a)); [| nra].
    rewrite (tan_shift a (a - PI)); try assumption.
    + rewrite atan_tan by assumption. ring.
    + rewrite Ea at 1. apply neg_sin.
    + rewrite Ea at 1. apply neg_cos.
    + apply cos_gt_0; lra.
Qed.

Lemma mkRotation_Q (r : fc.Rotation) : fc.mkRotation (Q r) = r.
Proof. destruct r. reflexivity. Qed.

(** The matrix of the quaternion made from roll, pitch and yaw is
    Rz Ry Rx. *)
Lemma quaternion_matrix_of_rpy (rpy : Rpy) (i j : nat) :
  (i < 3)%nat -> (j < 3)%nat ->
  (quaternion_matrix (Q (rotation_from_rpy rpy))).[i, j] = (rpy_matrix rpy).[i, j].
Proof.
  intros Hi Hj.
  assert (H : forall v,
             matrix_action (quaternion_matrix (Q (rotation_from_rpy rpy))) v
             = matrix_action (rpy_matrix rpy) v).
  { intros v.
    rewrite <- (quaternion_matrix_action _ v (rotation_from_rpy_norm rpy)).
    rewrite mkRotation_Q. apply rotation_from_rpy_action. }
  pose proof (H (fc.mkVector 1 0 0)) as H0.
  pose proof (H (fc.mkVector 0 1 0)) as H1.
  pose proof (H (fc.mkVector 0 0 1)) as H2.
  unfold matrix_action in H0, H1, H2. cbn [fc.x fc.y fc.z] in H0, H1, H2.
  injection H0 as A0 A1 A2. injection H1 as B0 B1 B2. injection H2 as C0 C1 C2.
  destruct i as [| [| [| i]]]; try lia;
    destruct j as [| [| [| j]]]; try lia; lra.
Qed.

(** Over the reals the formulas of [rpy_from_quaternion] undo
    [rotation_from_rpy] on all the angles of the regular branch: roll and
    yaw in (-pi, pi], pitch strictly inside (-pi/2, pi/2) with a cosine
    above the threshold. *)
Lemma rpy_from_rotation_from_rpy_regular (roll pitch yaw : R) :
  - PI < roll <= PI -> - PI < yaw <= PI -> - (PI / 2) < pitch < PI / 2 ->
  _EPS < cos pitch ->
  rpy_from_quaternion (Q (rotation_from_rpy (roll, pitch, yaw)))
  = (roll, pitch, yaw).
Proof.
  intros Hr Hy Hp Hc.
  pose proof _EPS_pos as He.
  assert (Hcp : 0 < cos pitch) by lra.
  unfold rpy_from_quaternion.
  set (M := quaternion_matrix (Q (rotation_from_rpy (roll, pitch, yaw)))).
  assert (E : forall i j, (i < 3)%nat -> (j < 3)%nat ->
                          M.[i, j] = (rpy_matrix (roll, pitch, yaw)).[i, j])
    by (intros i j; apply quaternion_matrix_of_rpy).
  assert (Hcy : sqrt (M.[0, 0] * M.[0, 0] + M.[1, 0] * M.[1, 0]) = cos pitch).
  { rewrite !E by lia. unfold rpy_matrix, np.get. cbn [nth].
    apply sqrt_lem_1; [nra | lra |].
    pose proof (sin2_cos2 yaw) as S. unfold Rsqr in S. nsatz. }
  rewrite euler_from_matrix_regular by (rewrite Hcy; exact Hc).
  rewrite Hcy, !E by lia.
  unfold rpy_matrix, np.get. cbn [nth].
  replace (- - sin pitch) with (1 * sin pitch) by ring.
  replace (math.atan2 (1 * sin pitch) (cos pitch))
    with (math.atan2 (1 * sin pitch) (1 * cos pitch)) by (f_equal; ring).
  replace (sin yaw * cos pitch) with (cos pitch * sin yaw) by ring.
  replace (cos yaw * cos pitch) with (cos pitch * cos yaw) by ring.
  rewrite !atan2_polar; try assumption; try lra.
  reflexivity.
Qed.

Lemma PI_gt_3 : 3 < PI.
Proof. pose proof PI2_bounds. lra. Qed.

Lemma cos_3_2 : / 16 < cos (3 / 2).
Proof.
  destruct (pre_cos_bound (3 / 2) 1) as [H _]; try lra.
  unfold cos_approx, cos_term, sum_f_R0 in H. simpl in H. lra.
Qed.

(** A pitch of at most 3/2 in absolute value is away from gimbal lock: its
    cosine is above 1/16, far above the threshold. *)
Lemma cos_away_from_gimbal_lock (pitch : R) :
  - (3 / 2) <= pitch <= 3 / 2 -> / 16 < cos pitch.
Proof.
  intros [Hlo Hhi]. pose proof PI_gt_3 as Hpi. pose proof cos_3_2 as Hc.
  destruct (Rle_dec 0 pitch) as [Hp | Hp].
  - assert (cos (3 / 2) <= cos pitch) by (apply cos_decr_1; lra). lra.
  - rewrite <- cos_neg.
    assert (cos (3 / 2) <= cos (- pitch)) by (apply cos_decr_1; lra). lra.
Qed.

(** X6: [rpy_from_quaternion] undoes [rotation_from_rpy] on roll and yaw in
    [-3, 3] and pitch in [-3/2, 3/2].  These angles keep a distance of more
    than 0.14 from the branch cut of [atan2] at pi and of more than 0.07
    from gimbal lock at pi/2, so that the sines and cosines the formulas
    divide by are not small. *)
Theorem rpy_from_rotation_from_rpy (roll pitch yaw : R) :
  - 3 <= roll <= 3 -> - (3 / 2) <= pitch <= 3 / 2 -> - 3 <= yaw <= 3 ->
  rpy_from_quaternion (Q (rotation_from_rpy (roll, pitch, yaw)))
  = (roll, pitch, yaw).
Proof.
  intros Hr Hp Hy.
  pose proof PI_gt_3 as Hpi. pose proof _EPS_sixteenth as He.
  pose proof (cos_away_from_gimbal_lock pitch Hp) as Hc.
  apply rpy_from_rotation_from_rpy_regular; lra.
Qed.

Lemma rpy_from_rotation_from_rpy_witness :
  (- 3 <= 3 / 10 <= 3 /\ - (3 / 2) <= 3 / 2 <= 3 / 2 /\ - 3 <= - (1 / 2) <= 3) /\
  rpy_from_quaternion (Q (rotation_from_rpy (3 / 10, 3 / 2, - (1 / 2))))
  = (3 / 10, 3 / 2, - (1 / 2)).
Proof.
  assert (Hr : - 3 <= 3 / 10 <= 3) by lra.
  assert (Hp : - (3 / 2) <= 3 / 2 <= 3 / 2) by lra.
  assert (Hy : - 3 <= - (1 / 2) <= 3) by lra.
  split; [auto |].
  apply (rpy_from_rotation_from_rpy _ _ _ Hr Hp Hy).
Defined.

(** X7: a quaternion below the threshold, the null quaternion among them,
    has roll, pitch and yaw zero. *)
Theorem rpy_from_degenerate_quaternion (q : QuatList) :
  norm2 q < _EPS -> rpy_from_quaternion q = (0, 0, 0).
Proof.
  intros H. unfold rpy_from_quaternion, quaternion_matrix. fold (norm2 q).
  destruct (Rlt_dec (norm2 q) _EPS); [| contradiction].
  rewrite euler_from_matrix_regular; unfold np.get; cbn.
  - replace (1 * 1 + 0 * 0) with 1 by ring. rewrite sqrt_1.
    replace (- 0) with 0 by ring. rewrite atan2_0_1. reflexivity.
  - replace (1 * 1 + 0 * 0) with 1 by ring. rewrite sqrt_1. exact _EPS_small.
Qed.

Lemma rpy_from_degenerate_quaternion_witness :
  norm2 (0, 0, 0, 0) < _EPS /\ rpy_from_quaternion (0, 0, 0, 0) = (0, 0, 0).
Proof.
  assert (H : norm2 (0, 0, 0, 0) < _EPS)
    by (unfold norm2; cbn; pose proof _EPS_pos; lra).
  split; [exact H | apply rpy_from_degenerate_quaternion, H].
Defined.

(** ** The angles of a rotation matrix rebuild it *)





(** ** What the emitters write *)

Lemma origin_floats (p : fc.Placement) :
  let e := urdf_origin_from_placement p in
  et.tag e = et.Tag "origin" /\
  attribute_floats e "xyz" = metres (Base p) /\
  attribute_floats e "rpy" = rpy_list (rpy_from_quaternion (Q (Rotation p))).
Proof.
  unfold urdf_origin_from_placement, attribute_floats.
  destruct (rpy_from_quaternion _) as [[r0 r1] r2]. cbv zeta.
  split; [reflexivity |]. split; [| reflexivity].
  cbn [et.get et.attrib et.fromstring String.eqb Ascii.eqb Bool.eqb floats].
  unfold metres, fc.Vector_mul. cbn [fc.x fc.y fc.z]. array_eq; lra.
Qed.

Lemma Placement_mul_Placement0 (p : fc.Placement) : (p * fc.Placement0)%fc = p.
Proof.
  destruct p as [[bx by_ bz] r]. unfold fc.Placement0.
  cbn [fc.Placement_mul]. rewrite Rotation_mul_Rotation0.
  f_equal. destruct r as [[[[qx qy] qz] qw]].
  unfold fc.Vector_add, fc.multVec. cbn [fc.x fc.y fc.z]. f_equal; ring.
Qed.

Section EmitterContents.

Context `{Host}.

Lemma box_emitter_value (box : DO) (generic : string) (p : fc.Placement)
    (ignore_obj_placement : bool) :
  is_box box = true ->
  _urdf_generic_from_box box generic p ignore_obj_placement
  = Ok (et.mkElement (et.Tag generic) [] None
          [ urdf_origin_from_placement
              (emitter_placement box p ignore_obj_placement
               * translation (fc.mkVector (Value (Length box) / 2)
                                          (Value (Width box) / 2)
                                          (Value (Height box) / 2)))%fc;
            urdf_geometry_box (getValueAs_m (Length box)) (getValueAs_m (Width box))
                              (getValueAs_m (Height box)) ]).
Proof.
  intros Hb. unfold _urdf_generic_from_box.
  rewrite Hb, (box_placement_ok _ _ Hb). cbn [negb bind].
  destruct ignore_obj_placement; reflexivity.
Qed.

Lemma cylinder_emitter_value (cyl : DO) (generic : string) (p : fc.Placement)
    (ignore_obj_placement : bool) :
  is_cylinder cyl = true ->
  _urdf_generic_from_cylinder cyl generic p ignore_obj_placement
  = Ok (et.mkElement (et.Tag generic) [] None
          [ urdf_origin_from_placement
              (emitter_placement cyl p ignore_obj_placement
               * translation (fc.mkVector 0 0 (Value (Height cyl) / 2)))%fc;
            urdf_geometry_cylinder (getValueAs_m (Radius cyl))
                                   (getValueAs_m (Height cyl)) ]).
Proof.
  intros Hc. unfold _urdf_generic_from_cylinder.
  rewrite Hc, (cylinder_placement_ok _ _ Hc). cbn [negb bind].
  destruct ignore_obj_placement; reflexivity.
Qed.

Lemma mesh_emitter_value (obj : DO) (mesh_name package_name generic : string)
    (p : fc.Placement) :
  _urdf_generic_mesh obj mesh_name package_name generic p
  = Ok (et.mkElement (et.Tag generic) [] None
          [ et.Comment (xml_comment (Label obj));
            urdf_origin_from_placement p;
            urdf_geometry_mesh mesh_name package_name ]).
Proof. reflexivity. Qed.

(** X9: the element of a box says, in metres, where the centre of the box
    is and how large the box is: its origin holds the base of the working
    placement moved by the rotated half extent, with the roll, pitch and yaw
    of the working placement, and its geometry holds length, width and
    height; every length is divided by 1000 once. *)
Theorem box_emitter_element (box : DO) (generic : string) (p : fc.Placement)
    (ignore_obj_placement : bool) :
  is_box box = true ->
  let working := emitter_placement box p ignore_obj_placement in
  let half :=
    fc.mkVector (Value (Length box) / 2) (Value (Width box) / 2)
                (Value (Height box) / 2) in
  exists origin geometry shape,
    _urdf_generic_from_box box generic p ignore_obj_placement
    = Ok (et.mkElement (et.Tag generic) [] None [origin; geometry]) /\
    et.tag origin = et.Tag "origin" /\
    attribute_floats origin "xyz" = metres (centre working half) /\
    attribute_floats origin "rpy"
    = rpy_list (rpy_from_quaternion (Q (Rotation working))) /\
    geometry = et.mkElement (et.Tag "geometry") [] None [shape] /\
    et.tag shape = et.Tag "box" /\
    attribute_floats shape "size"
    = [Value (Length box) / 1000; Value (Width box) / 1000;
       Value (Height box) / 1000].
Proof.
  intros Hb working half.
  do 3 eexists. split; [apply (box_emitter_value _ _ _ _ Hb) |].
  fold half. fold working.
  destruct (origin_floats (working * translation half)%fc) as [T [X A]].
  destruct (Placement_mul_translation working half) as [Er Eb].
  split; [exact T |]. split; [rewrite X, Eb; reflexivity |].
  split; [rewrite A, Er; reflexivity |].
  split; [reflexivity |]. split; reflexivity.
Qed.

(** X10: the element of a cylinder says, in metres, where the centre of the
    cylinder is and how large it is: its origin holds the base of the
    working placement moved by half the height along the rotated z axis, with
    the roll, pitch and yaw of the working placement, and its geometry holds
    the radius and, as length, the height. *)
Theorem cylinder_emitter_element (cyl : DO) (generic : string) (p : fc.Placement)
    (ignore_obj_placement : bool) :
  is_cylinder cyl = true ->
  let working := emitter_placement cyl p ignore_obj_placement in
  let half := fc.mkVector 0 0 (Value (Height cyl) / 2) in
  exists origin geometry shape,
    _urdf_generic_from_cylinder cyl generic p ignore_obj_placement
    = Ok (et.mkElement (et.Tag generic) [] None [origin; geometry]) /\
    et.tag origin = et.Tag "origin" /\
    attribute_floats origin "xyz" = metres (centre working half) /\
    attribute_floats origin "rpy"
    = rpy_list (rpy_from_quaternion (Q (Rotation working))) /\
    geometry = et.mkElement (et.Tag "geometry") [] None [shape] /\
    et.tag shape = et.Tag "cylinder" /\
    attribute_floats shape "radius" = [Value (Radius cyl) / 1000] /\
    attribute_floats shape "length" = [Value (Height cyl) / 1000].
Proof.
  intros Hc working half.
  do 3 eexists. split; [apply (cylinder_emitter_value _ _ _ _ Hc) |].
  fold half. fold working.
  destruct (origin_floats (working * translation half)%fc) as [T [X A]].
  destruct (Placement_mul_translation working half) as [Er Eb].
  split; [exact T |]. split; [rewrite X, Eb; reflexivity |].
  split; [rewrite A, Er; reflexivity |].
  split; [reflexivity |]. split; [reflexivity |]. split; reflexivity.
Qed.

(** X11: the element of a sphere holds its radius in metres and nothing
    about where the sphere is: it is the same for every placement and for
    either value of [ignore_obj_placement]. *)
Theorem sphere_emitter_element (sphere : DO) (generic : string) (p : fc.Placement)
    (ignore_obj_placement : bool) :
  is_sphere sphere = true ->
  exists geometry shape,
    _urdf_generic_from_sphere sphere generic p ignore_obj_placement
    = Ok (et.mkElement (et.Tag generic) [] None [geometry]) /\
    geometry = et.mkElement (et.Tag "geometry") [] None [shape] /\
    et.tag shape = et.Tag "sphere" /\
    attribute_floats shape "radius" = [Value (Radius sphere) / 1000] /\
    forall (p' : fc.Placement) (ignore' : bool),
      _urdf_generic_from_sphere sphere generic p' ignore'
      = _urdf_generic_from_sphere sphere generic p ignore_obj_placement.
Proof.
  intros Hs. do 2 eexists.
  split; [apply (sphere_emitter_value _ _ _ _ Hs) |].
  split; [reflexivity |]. split; [reflexivity |]. split; [reflexivity |].
  intros p' ignore'. rewrite !sphere_emitter_value by exact Hs. reflexivity.
Qed.

(** X12: when the placement of the object is the identity, the flag
    [ignore_obj_placement] changes nothing in the element of a box or of a
    cylinder. *)
Theorem ignore_obj_placement_at_identity (obj : DO) (generic : string)
    (p : fc.Placement) (ignore_obj_placement : bool) :
  Placement obj = fc.Placement0 ->
  _urdf_generic_from_box obj generic p ignore_obj_placement
  = _urdf_generic_from_box obj generic p true /\
  _urdf_generic_from_cylinder obj generic p ignore_obj_placement
  = _urdf_generic_from_cylinder obj generic p true.
Proof.
  intros E. unfold _urdf_generic_from_box, _urdf_generic_from_cylinder.
  destruct ignore_obj_placement; [split; reflexivity |].
  cbn [negb]. rewrite E, Placement_mul_Placement0. split; reflexivity.
Qed.

(** X13: for an object with a placement, one of the two roles and a package
    name and a mesh name of plain text, the element of the mesh emitter
    holds a comment, the origin of the given placement as it is, in metres,
    with no centring and without the placement of the object, and the
    reference [package://<package>/meshes/<name>]. *)
Theorem mesh_emitter_element (obj : DO) (mesh_name package_name generic : string)
    (p : fc.Placement) :
  has_placement obj = true -> role generic ->
  plain_text package_name = true -> plain_text mesh_name = true ->
  exists origin geometry,
    _urdf_generic_mesh obj mesh_name package_name generic p
    = Ok (et.mkElement (et.Tag generic) [] None
            [et.Comment (xml_comment (Label obj)); origin; geometry]) /\
    et.tag origin = et.Tag "origin" /\
    attribute_floats origin "xyz" = metres (Base p) /\
    attribute_floats origin "rpy"
    = rpy_list (rpy_from_quaternion (Q (Rotation p))) /\
    geometry
    = et.mkElement (et.Tag "geometry") [] None
        [et.fromstring "mesh"
           [("filename",
             [et.Lit ("package://" ++ package_name ++ "/meshes/" ++ mesh_name)])]].
Proof.
  intros _ _ _ _.
  do 2 eexists. split; [apply mesh_emitter_value |].
  destruct (origin_floats p) as [T [X A]].
  split; [exact T |]. split; [exact X |]. split; [exact A | reflexivity].
Qed.

End EmitterContents.

Section EmitterContentsExamples.

#[local] Existing Instance demo.host.

Lemma box_emitter_element_witness :
  is_box demo.box = true /\
  exists origin geometry shape,
    urdf_visual_from_box demo.box fc.Placement0 false
    = Ok (et.mkElement (et.Tag "visual") [] None [origin; geometry]) /\
    attribute_floats origin "xyz" = [1 / 1000; 2 / 1000; 3 / 1000]%R /\
    geometry = et.mkElement (et.Tag "geometry") [] None [shape] /\
    attribute_floats shape "size" = [2 / 1000; 4 / 1000; 6 / 1000]%R.
Proof.
  split; [reflexivity |].
  destruct (@box_emitter_element demo.host demo.box "visual" fc.Placement0 false
              eq_refl) as [origin [geometry [shape [E [_ [X [_ [G [_ S]]]]]]]]].
  exists origin, geometry, shape.
  split; [exact E |]. split; [| split; [exact G | exact S]].
  rewrite X. unfold metres, centre, fc.Vector_add. cbn. array_eq; field.
Defined.

Lemma cylinder_emitter_element_witness :
  is_cylinder demo.cylinder = true /\
  exists origin geometry shape,
    urdf_collision_from_cylinder demo.cylinder fc.Placement0 true
    = Ok (et.mkElement (et.Tag "collision") [] None [origin; geometry]) /\
    attribute_floats origin "xyz" = [0; 0; 5 / 1000]%R /\
    geometry = et.mkElement (et.Tag "geometry") [] None [shape] /\
    attribute_floats shape "radius" = [5 / 1000]%R /\
    attribute_floats shape "length" = [10 / 1000]%R.
Proof.
  split; [reflexivity |].
  destruct (@cylinder_emitter_element demo.host demo.cylinder "collision"
              fc.Placement0 true eq_refl)
    as [origin [geometry [shape [E [_ [X [_ [G [_ [Rd L]]]]]]]]]].
  exists origin, geometry, shape.
  split; [exact E |]. split; [| split; [exact G | split; [exact Rd | exact L]]].
  rewrite X. unfold metres, centre, fc.Vector_add. cbn. array_eq; field.
Defined.

Lemma sphere_emitter_element_witness :
  is_sphere demo.sphere = true /\
  exists geometry shape,
    urdf_visual_from_sphere demo.sphere quarter_turn_z false
    = Ok (et.mkElement (et.Tag "visual") [] None [geometry]) /\
    geometry = et.mkElement (et.Tag "geometry") [] None [shape] /\
    attribute_floats shape "radius" = [5 / 1000]%R.
Proof.
  split; [reflexivity |].
  destruct (@sphere_emitter_element demo.host demo.sphere "visual" quarter_turn_z
              false eq_refl) as [geometry [shape [E [G [_ [Rd _]]]]]].
  exists geometry, shape. split; [exact E |]. split; [exact G | exact Rd].
Defined.

Lemma ignore_obj_placement_at_identity_witness :
  Placement demo.box = fc.Placement0 /\
  urdf_visual_from_box demo.box quarter_turn_z false
  = urdf_visual_from_box demo.box quarter_turn_z true.
Proof.
  split; [reflexivity |].
  apply (@ignore_obj_placement_at_identity demo.host demo.box "visual"
           quarter_turn_z false eq_refl).
Defined.

Lemma mesh_emitter_element_witness :
  (has_placement demo.arm = true /\ role "visual"
   /\ plain_text "robot" = true /\ plain_text "Arm.dae" = true) /\
  exists origin geometry,
    urdf_visual_mesh demo.arm "Arm.dae" "robot" fc.Placement0
    = Ok (et.mkElement (et.Tag "visual") [] None
            [et.Comment "Arm"; origin; geometry]) /\
    attribute_floats origin "xyz" = [0 / 1000; 0 / 1000; 0 / 1000]%R /\
    mesh_reference (et.mkElement (et.Tag "visual") [] None
                      [et.Comment "Arm"; origin; geometry])
    = Some [et.Lit "package://robot/meshes/Arm.dae"].
Proof.
  assert (Hr : role "visual") by (left; reflexivity).
  split; [repeat split; try reflexivity; exact Hr |].
  destruct (@mesh_emitter_element demo.host demo.arm "Arm.dae" "robot" "visual"
              fc.Placement0 eq_refl Hr eq_refl eq_refl)
    as [origin [geometry [E [_ [X [_ G]]]]]].
  exists origin, geometry.
  split; [exact E |]. split; [exact X |].
  rewrite G. reflexivity.
Defined.

End EmitterContentsExamples.

(** ** What the dispatcher returns *)

Lemma Forall2_map_eq {A B C : Type} (f : B -> C) (g : A -> C)
    (l : list A) (l' : list B) :
  Forall2 (fun a b => f b = g a) l l' -> map f l' = map g l.
Proof. induction 1; cbn; congruence. Qed.



Section DispatcherFacts.

Context `{Host}.

(** X14: for one of the two roles, leaves that have a placement, a package
    name that is absent, empty or of plain text, and a mesh file name of
    plain text, [_urdf_generic_from_object] returns one export record for
    every leaf, in the order of the traversal, each with the object the leaf
    links to and the placement computed for it, and it warns exactly when a
    mesh leaf is met without a package name, then once. *)
Theorem dispatcher_records (obj : DO) (generic : string)
    (package_name : option string) (supplied : option fc.Placement) :
  role generic -> leaves_have_placement obj ->
  plain_text (effective_package_name package_name) = true ->
  plain_text (mesh_file obj) = true ->
  let leafs := get_leafs_and_subnames obj in
  exists records,
    _urdf_generic_from_object obj generic package_name supplied
    = (Ok records,
       if negb (package_name_bool package_name) && existsb is_mesh_leaf leafs
       then [warning_no_package_name] else []) /\
    map object records = map leaf_object leafs /\
    map placement records = map (leaf_placement supplied) leafs.
Proof.
  intros _ _ _ _ leafs. unfold _urdf_generic_from_object. fold leafs.
  destruct (dispatcher_loop obj generic supplied leafs package_name [] [])
    as [records [E F]].
  exists records. split; [exact E |]. split.
  - apply Forall2_map_eq. revert F. apply Forall2_impl.
    intros leaf r [O _]. exact O.
  - apply Forall2_map_eq. revert F. apply Forall2_impl.
    intros leaf r [_ [P _]]. exact P.
Qed.


(** X16: for one of the two roles and leaves that have a placement, with a
    package name of plain text that is not empty and a mesh file name of
    plain text, no warning is emitted and every mesh leaf is referred to as
    [package://<package_name>/meshes/<mesh_filename>]. *)
Theorem mesh_with_package_name (obj : DO) (generic package_name : string)
    (supplied : option fc.Placement) :
  role generic -> leaves_have_placement obj ->
  package_name <> "" -> plain_text package_name = true ->
  plain_text (mesh_file obj) = true ->
  exists records,
    _urdf_generic_from_object obj generic (Some package_name) supplied
    = (Ok records, []) /\
    Forall2 (fun leaf r =>
               is_mesh_leaf leaf = true ->
               mesh_reference (xml r)
               = Some [et.Lit ("package://" ++ package_name ++ "/meshes/"
                               ++ mesh_filename r)])
            (get_leafs_and_subnames obj) records.
Proof.
  intros _ _ Hn _ _.
  assert (Hb : package_name_bool (Some package_name) = true).
  { cbn. destruct (String.eqb_spec package_name ""); [contradiction | reflexivity]. }
  unfold _urdf_generic_from_object.
  destruct (dispatcher_loop obj generic supplied (get_leafs_and_subnames obj)
              (Some package_name) [] []) as [records [E F]].
  rewrite Hb in E. cbn [negb andb app] in E.
  unfold effective_package_name in F. rewrite Hb in F. cbn [package_name_str] in F.
  exists records. split; [exact E |].
  revert F. apply Forall2_impl.
  intros leaf r [_ [_ L]] M. unfold is_mesh_leaf in M.
  destruct (is_box (leaf_object leaf)); [discriminate |].
  destruct (is_sphere (leaf_object leaf)); [discriminate |].
  destruct (is_cylinder (leaf_object leaf)); [discriminate |].
  destruct L as [_ L]. rewrite mesh_emitter_value in L.
  injection L as <-. reflexivity.
Qed.


End DispatcherFacts.

Section DispatcherFactsExamples.

#[local] Existing Instance demo.host.

Lemma mesh_with_package_name_witness :
  (role "visual" /\ leaves_have_placement demo.workcell
   /\ "robot" <> "" /\ plain_text "robot" = true
   /\ plain_text (mesh_file demo.workcell) = true) /\
  exists records,
    urdf_visual_from_object demo.workcell (Some "robot") None = (Ok records, []) /\
    Forall2 (fun leaf r =>
               is_mesh_leaf leaf = true ->
               mesh_reference (xml r)
               = Some [et.Lit ("package://" ++ "robot" ++ "/meshes/"
                               ++ mesh_filename r)])
            (get_leafs_and_subnames demo.workcell) records.
Proof.
  assert (Hr : role "visual") by (left; reflexivity).
  assert (Hl : leaves_have_placement demo.workcell) by (repeat constructor).
  assert (Hn : "robot" <> "") by discriminate.
  split; [repeat split; try reflexivity; assumption |].
  apply (@mesh_with_package_name demo.host demo.workcell "visual" "robot" None
           Hr Hl Hn eq_refl eq_refl).
Defined.

Lemma dispatcher_records_witness :
  (role "collision" /\ leaves_have_placement demo.workcell
   /\ plain_text (effective_package_name None) = true
   /\ plain_text (mesh_file demo.workcell) = true) /\
  exists records,
    _urdf_generic_from_object demo.workcell "collision" None None
    = (Ok records, [warning_no_package_name]) /\
    map object records = [demo.box; demo.cylinder; demo.arm] /\
    map placement records = [fc.Placement0; fc.Placement0; fc.Placement0].
Proof.
  assert (Hr : role "collision") by (right; reflexivity).
  assert (Hl : leaves_have_placement demo.workcell) by (repeat constructor).
  split; [repeat split; try reflexivity; assumption |].
  destruct (@dispatcher_records demo.host demo.workcell "collision" None None
              Hr Hl eq_refl eq_refl) as [records [E [O P]]].
  exists records. split; [exact E |]. split; [exact O |].
  rewrite P. cbn. unfold demo.placement_of_matrix, translation, fc.Placement0.
  reflexivity.
Defined.

End DispatcherFactsExamples.
